(** * git2txt: the tree walker and file aggregator of [index.js]

    A shallow embedding of [processFiles] and of its inner function
    [processDirectory] (index.js, lines 244-331), with the properties of
    the natural-language specification proved about it.

    Modelling decisions.
    - A path is the list of its components once resolved; entry names
      returned by [fs.readdir] are single components (never empty, [.],
      [..] or containing a separator), so [path.join dir name] adds one
      component.  Separators are the POSIX ones.
    - The file system is a snapshot: a tree whose nodes carry the outcome
      that each asynchronous call ([fs.readdir], [fs.stat], [isBinaryFile],
      [fs.readFile]) settles with, a value or a rejection.
    - Awaited calls run one after the other, so the code is a sequential
      program in a monad that threads the local variables of [processFiles]
      and the trace of observable effects, and that keeps the state when an
      exception is thrown, as JavaScript does.
    - [options.threshold] is a rational: the product by 1024 * 1024 is exact
      on doubles (a scaling by a power of two), and a file size is an
      integer.
    - [formatFileSize] comes from the npm package [filesize]; it is a
      parameter of the development. *)

From Stdlib Require Import List String Ascii Bool Arith ZArith QArith Lia.
From Stdlib Require Import Permutation DecimalString.
Import ListNotations.

Local Open Scope string_scope.
Local Open Scope list_scope.
Local Open Scope nat_scope.

Set Implicit Arguments.

(** ** Settled promises and the effect monad *)

Module Js.

(** The message of a JavaScript [Error]. *)
Definition error := string.

(** What an awaited promise settles with. *)
Inductive settled (A : Type) : Type :=
| Fulfilled (a : A)
| Rejected (e : error).

Arguments Fulfilled {A} a.
Arguments Rejected {A} e.

Section Monad.
Variable S : Type.

(** A computation reads and writes the state and either returns or
    throws; the state survives a throw. *)
Definition M (A : Type) : Type := S -> settled A * S.

Definition ret {A} (a : A) : M A := fun s => (Fulfilled a, s).

Definition throw {A} (e : error) : M A := fun s => (Rejected e, s).

Definition bind {A B} (m : M A) (k : A -> M B) : M B :=
  fun s =>
    match m s with
    | (Fulfilled a, s') => k a s'
    | (Rejected e, s') => (Rejected e, s')
    end.

(** [try { body } catch (error) { handler }]. *)
Definition try_catch {A} (body : M A) (handler : error -> M A) : M A :=
  fun s =>
    match body s with
    | (Fulfilled a, s') => (Fulfilled a, s')
    | (Rejected e, s') => handler e s'
    end.

Definition get : M S := fun s => (Fulfilled s, s).

Definition modify (f : S -> S) : M unit := fun s => (Fulfilled tt, f s).

(** [if (c) stmt;] *)
Definition when (c : bool) (m : M unit) : M unit :=
  if c then m else ret tt.

(** [await p] for a promise whose outcome is known. *)
Definition await {A} (p : settled A) : M A :=
  match p with
  | Fulfilled a => ret a
  | Rejected e => throw e
  end.

End Monad.

Arguments ret {S A} a _.
Arguments throw {S A} e _.
Arguments get {S} _.

End Js.

Import Js.

Declare Scope js_scope.
Delimit Scope js_scope with js.
Notation "x <- m ;; k" := (bind m (fun x => k))
  (at level 61, m at next level, right associativity) : js_scope.
Notation "m ;; k" := (bind m (fun _ => k))
  (at level 61, right associativity) : js_scope.
Local Open Scope js_scope.

(** ** Paths *)

Module Path.

(** A resolved path, as the list of its components from the root of the
    file system. *)
Definition path := list string.

(** [path.join(dir, name)] for an entry name. *)
Definition join (dir : path) (name : string) : path := dir ++ [name].

(** The components of [path.relative(from, to)]: drop the common prefix,
    climb out of what is left of [from], go down what is left of [to]. *)
Fixpoint relative_components (from to : path) : list string :=
  match from, to with
  | f :: from', t :: to' =>
      if (f =? t)%string then relative_components from' to'
      else map (fun _ => "..") from ++ to
  | _, _ => map (fun _ => "..") from ++ to
  end.

(** [path.relative(from, to)]. *)
Definition relative (from to : path) : string :=
  String.concat "/" (relative_components from to).

End Path.

Import Path.

(** ** The file-system snapshot *)

(** A regular file: what [fs.stat(p)] reports as [size], the verdict of
    [isBinaryFile(p)] and the text [fs.readFile(p, 'utf8')] yields, each of
    which may reject instead. *)
Record file : Type := mkFile {
  f_stat : settled Z;
  f_isBinary : settled bool;
  f_content : settled string
}.

(** A directory entry with its [Dirent] kind: [isFile()], [isDirectory()],
    or neither (symbolic link, socket, device...).  A directory carries the
    outcome of [fs.readdir] on it. *)
#[local] Set Warnings "-register-all".
Inductive node : Type :=
| File (f : file)
| Dir (listing : settled (list (string * node)))
| Special.

Definition dirent : Type := (string * node)%type.

Definition isDirectory (n : node) : bool :=
  match n with Dir _ => true | _ => false end.

Definition isFile (n : node) : bool :=
  match n with File _ => true | _ => false end.

(** ** Induction on the snapshot *)

Section NodeInduction.

Variable P : node -> Prop.
Hypothesis P_file : forall f, P (File f).
Hypothesis P_special : P Special.
Hypothesis P_unreadable : forall e, P (Dir (Rejected e)).
Hypothesis P_dir :
  forall es, Forall (fun d : dirent => P (snd d)) es -> P (Dir (Fulfilled es)).

Fixpoint node_induction (n : node) : P n :=
  match n with
  | File f => P_file f
  | Special => P_special
  | Dir (Rejected e) => P_unreadable e
  | Dir (Fulfilled es) =>
      P_dir
        ((fix all (l : list (string * node))
            : Forall (fun d : dirent => P (snd d)) l :=
            match l with
            | [] => Forall_nil _
            | (nm, c) :: l' =>
                Forall_cons (nm, c) (node_induction c) (all l')
            end) es)
  end.

End NodeInduction.

(** ** Observable effects and program state *)

Inductive event : Type :=
| FsReaddir (p : path)
| FsStat (p : path)
| IsBinaryFile (p : path)
| FsReadFile (p : path)
| ConsoleLog (msg : string)
| ConsoleError (msg : string) (err : error)
| ConsoleWarn (msg : string)
| OraStart (text : string)
| OraSucceed (text : string)
| OraFail (text : string).

(** The three local variables of [processFiles] (lines 247-249) and the
    trace of effects so far, oldest first. *)
Record state : Type := mkState {
  output : string;
  processedFiles : nat;
  skippedFiles : nat;
  effects : list event
}.

Definition emit (ev : event) : M state unit :=
  modify (fun st => mkState (output st) (processedFiles st) (skippedFiles st)
                            (effects st ++ [ev])).

(** [output += s] *)
Definition output_append (s : string) : M state unit :=
  modify (fun st => mkState (output st ++ s) (processedFiles st)
                            (skippedFiles st) (effects st)).

(** [processedFiles++] *)
Definition processedFiles_incr : M state unit :=
  modify (fun st => mkState (output st) (Datatypes.S (processedFiles st))
                            (skippedFiles st) (effects st)).

(** [skippedFiles++] *)
Definition skippedFiles_incr : M state unit :=
  modify (fun st => mkState (output st) (processedFiles st)
                            (Datatypes.S (skippedFiles st)) (effects st)).

(** ** Configuration *)

(** [options] of [processFiles]: [threshold] in megabytes. *)
Record options : Type := mkOptions {
  threshold : Q;
  includeAll : bool
}.

(** What the code reads of [process.env]. *)
Record env : Type := mkEnv {
  NODE_ENV_is_test : bool;  (* process.env.NODE_ENV === 'test' *)
  DEBUG : bool              (* process.env.DEBUG is truthy *)
}.

(** The line break of the template literals. *)
Definition newline : string := String "010" "".

(** [s.repeat(n)] *)
Fixpoint repeat_string (s : string) (n : nat) : string :=
  match n with
  | O => ""
  | Datatypes.S n' => s ++ repeat_string s n'
  end.

(** A counter inside a template literal. *)
Definition string_of_nat (n : nat) : string :=
  NilZero.string_of_uint (Nat.to_uint n).

(** The text of line 316. *)
Definition succeed_text (processedFiles skippedFiles : nat) : string :=
  "Processed " ++ string_of_nat processedFiles ++ " files successfully ("
  ++ string_of_nat skippedFiles ++ " skipped)".

(** [size > thresholdBytes] on numbers. *)
Definition exceeds (size : Z) (thresholdBytes : Q) : bool :=
  negb (Qle_bool (inject_Z size) thresholdBytes).

(** [name !== 'node_modules' && name !== '.git'] (line 261). *)
Definition not_reserved (name : string) : bool :=
  negb (name =? "node_modules")%string && negb (name =? ".git")%string.

(** ** The pipeline *)

Section Pipeline.

Variable formatFileSize : Z -> string.
Variable E : env.
Variable directory : path.
Variable opts : options.

(** Line 246. *)
Definition thresholdBytes : Q :=
  (threshold opts * inject_Z 1024 * inject_Z 1024)%Q.

(** The [try] block of the loop body (lines 270-301); each [continue]
    ends the block. *)
Definition processDirectory_try (fullPath : path) (name : string) (f : file)
  : M state unit :=
  emit (FsStat fullPath) ;;
  size <- await (f_stat f) ;;
  if negb (includeAll opts) && exceeds size thresholdBytes then
    when (DEBUG E) (emit (ConsoleLog ("Skipping large file: " ++ name))) ;;
    skippedFiles_incr
  else
    binary <- (if negb (includeAll opts)
               then emit (IsBinaryFile fullPath) ;; await (f_isBinary f)
               else ret false) ;;
    if binary then
      when (DEBUG E) (emit (ConsoleLog ("Skipping binary file: " ++ name))) ;;
      skippedFiles_incr
    else
      emit (FsReadFile fullPath) ;;
      content <- await (f_content f) ;;
      let relativePath := relative directory fullPath in
      output_append (newline ++ repeat_string "=" 80 ++ newline) ;;
      output_append ("File: " ++ relativePath ++ newline) ;;
      output_append ("Size: " ++ formatFileSize size ++ newline) ;;
      output_append (repeat_string "=" 80 ++ newline ++ newline) ;;
      output_append (content ++ newline) ;;
      processedFiles_incr ;;
      when (DEBUG E) (emit (ConsoleLog ("Processed file: " ++ relativePath))).

(** The [catch] block (lines 302-307). *)
Definition processDirectory_catch (name : string) (err : error)
  : M state unit :=
  when (DEBUG E) (emit (ConsoleError ("Error processing " ++ name ++ ":") err)) ;;
  skippedFiles_incr.

(** The body of the [for] loop (lines 259-307) for one entry, with the
    recursive call to [processDirectory] (lines 256-258) unfolded in it. *)
Fixpoint processEntry (dir : path) (name : string) (n : node) {struct n}
  : M state unit :=
  let fullPath := join dir name in
  match n with
  | Dir listing =>
      if not_reserved name then
        emit (FsReaddir fullPath) ;;
        match listing with
        | Rejected e => throw e
        | Fulfilled entries =>
            (fix loop (es : list (string * node)) : M state unit :=
               match es with
               | [] => ret tt
               | (nm, c) :: es' => processEntry fullPath nm c ;; loop es'
               end) entries
        end
      else ret tt
  | File f =>
      try_catch (processDirectory_try fullPath name f)
                (processDirectory_catch name)
  | Special => ret tt
  end.

(** [for (const entry of entries) { ... }] (line 258). *)
Fixpoint processEntries (dir : path) (entries : list dirent) : M state unit :=
  match entries with
  | [] => ret tt
  | (name, n) :: rest => processEntry dir name n ;; processEntries dir rest
  end.

(** [processDirectory(dir)] (lines 255-309); [listing] is what
    [fs.readdir(dir, { withFileTypes: true })] settles with. *)
Definition processDirectory (dir : path)
  (listing : settled (list dirent)) : M state unit :=
  emit (FsReaddir dir) ;;
  entries <- await listing ;;
  processEntries dir entries.

(** The body of [processFiles] once the locals are initialised
    (lines 245, 311-330). *)
Definition processFiles_body (root : settled (list dirent)) : M state string :=
  let spinner := negb (NODE_ENV_is_test E) in
  when spinner (emit (OraStart "Processing files...")) ;;
  try_catch
    (processDirectory directory root ;;
     st <- get ;;
     when spinner
       (emit (OraSucceed
                (succeed_text (processedFiles st) (skippedFiles st)))) ;;
     when ((processedFiles st =? 0) && DEBUG E)
       (emit (ConsoleWarn "Warning: No files were processed")) ;;
     ret (output st))
    (fun err =>
       when spinner (emit (OraFail "Failed to process files")) ;;
       throw err).

(** The state [processFiles] starts from: fresh locals (lines 247-249) and
    the effects [world] of what ran before the call. *)
Definition initial (world : list event) : state := mkState "" 0 0 world.

(** One call of [processFiles(directory, options)], with the values of
    the locals when it returns or throws. *)
Definition processFiles_run (root : settled (list dirent))
  (world : list event) : settled string * state :=
  processFiles_body root (initial world).

(** [processFiles(directory, options)] (lines 244-331): what the caller
    gets, and the effects. *)
Definition processFiles (root : settled (list dirent))
  (world : list event) : settled string * list event :=
  let (r, st) := processFiles_run root world in (r, effects st).

End Pipeline.


(** ** The contract, in the words of the specification *)

(** The result of classifying one candidate (specification, section 3). *)
Inductive classification : Type :=
| Included (size : Z) (content : string)
| SkippedTooLarge
| SkippedBinary
| SkippedReadError.

(** A candidate: its path relative to the root, as components, and the
    file. *)
Definition candidate : Type := (list string * file)%type.

Section Contract.

Variable formatFileSize : Z -> string.
Variable opts : options.

(** Steps 1 to 4 of the classifier (specification, section 4.2).  A
    detector that fails is filed with the read errors. *)
Definition classify (f : file) : classification :=
  match f_stat f with
  | Rejected _ => SkippedReadError
  | Fulfilled size =>
      if negb (includeAll opts) && exceeds size (thresholdBytes opts)
      then SkippedTooLarge
      else
        match (if includeAll opts then Fulfilled false else f_isBinary f) with
        | Rejected _ => SkippedReadError
        | Fulfilled true => SkippedBinary
        | Fulfilled false =>
            match f_content f with
            | Rejected _ => SkippedReadError
            | Fulfilled content => Included size content
            end
        end
  end.

Definition kept (c : candidate) : bool :=
  match classify (snd c) with
  | Included _ _ => true
  | _ => false
  end.

Definition delimiter : string := repeat_string "=" 80.

(** The record of an included file: a line break, the delimiter line, the
    path line, the size line, the delimiter line, a blank line, the content
    and a line break. *)
Definition record (relativePath : string) (size : Z) (content : string)
  : string :=
  (newline ++ delimiter ++ newline
   ++ "File: " ++ relativePath ++ newline
   ++ "Size: " ++ formatFileSize size ++ newline
   ++ delimiter ++ newline
   ++ newline
   ++ content ++ newline)%string.

Definition record_of (c : candidate) : string :=
  match classify (snd c) with
  | Included size content => record (String.concat "/" (fst c)) size content
  | _ => ""
  end.

(** The locals after one candidate is classified (steps 1 to 5). *)
Definition settle (relativePath : string) (c : classification) (st : state)
  : string * nat * nat :=
  match c with
  | Included size content =>
      ((output st ++ record relativePath size content)%string,
       Datatypes.S (processedFiles st), skippedFiles st)
  | _ => (output st, processedFiles st, Datatypes.S (skippedFiles st))
  end.

End Contract.

Definition locals (st : state) : string * nat * nat :=
  (output st, processedFiles st, skippedFiles st).

(** The tree walker (specification, section 4.1): the regular files
    reached from an entry in depth-first order, where [rel] is the path of
    the enclosing directory relative to the root. *)
Fixpoint walk_entry (rel : list string) (name : string) (n : node)
  {struct n} : list candidate :=
  match n with
  | File f => [(rel ++ [name], f)]
  | Dir listing =>
      if not_reserved name then
        match listing with
        | Rejected _ => []
        | Fulfilled entries =>
            (fix go (es : list (string * node)) : list candidate :=
               match es with
               | [] => []
               | (nm, c) :: es' => walk_entry (rel ++ [name]) nm c ++ go es'
               end) entries
        end
      else []
  | Special => []
  end.

Fixpoint walk (rel : list string) (entries : list dirent) : list candidate :=
  match entries with
  | [] => []
  | (name, n) :: rest => walk_entry rel name n ++ walk rel rest
  end.

(** The regular files visited from the root. *)
Definition visited (root : settled (list dirent)) : list candidate :=
  match root with
  | Fulfilled entries => walk [] entries
  | Rejected _ => []
  end.

(** The first directory, in depth-first order, whose enumeration fails. *)
Fixpoint failure_entry (name : string) (n : node) {struct n} : option error :=
  match n with
  | Dir listing =>
      if not_reserved name then
        match listing with
        | Rejected e => Some e
        | Fulfilled entries =>
            (fix go (es : list (string * node)) : option error :=
               match es with
               | [] => None
               | (nm, c) :: es' =>
                   match failure_entry nm c with
                   | Some e => Some e
                   | None => go es'
                   end
               end) entries
        end
      else None
  | _ => None
  end.

Fixpoint failure (entries : list dirent) : option error :=
  match entries with
  | [] => None
  | (name, n) :: rest =>
      match failure_entry name n with
      | Some e => Some e
      | None => failure rest
      end
  end.

Definition fatal (root : settled (list dirent)) : option error :=
  match root with
  | Fulfilled entries => failure entries
  | Rejected e => Some e
  end.

(** The records of the included files, in the order of the walk. *)
Definition records (formatFileSize : Z -> string) (opts : options)
  (root : settled (list dirent)) : list string :=
  map (record_of formatFileSize opts) (filter (kept opts) (visited root)).

(** A file that sits at the relative path [segs] below a listing. *)
Inductive located : list dirent -> list string -> file -> Prop :=
| located_here : forall es name f,
    In (name, File f) es -> located es [name] f
| located_below : forall es name sub segs f,
    In (name, Dir (Fulfilled sub)) es ->
    located sub segs f ->
    located es (name :: segs) f.

(** The directories on the way to a file: all components but the last. *)
Definition ancestors (segs : list string) : list string := removelast segs.

(** The number of [fs.stat] calls in a trace. *)
Fixpoint stat_calls (trace : list event) : nat :=
  match trace with
  | [] => 0
  | FsStat _ :: rest => Datatypes.S (stat_calls rest)
  | _ :: rest => stat_calls rest
  end.

(** What a stretch of the run does to the state when it classifies the
    candidates [cands] in order: one record per included candidate, one
    count per candidate, one [fs.stat] per candidate. *)
Definition advanced (formatFileSize : Z -> string) (opts : options)
  (cands : list candidate) (st st' : state) : Prop :=
  output st'
  = (output st
     ++ String.concat ""
          (map (record_of formatFileSize opts) (filter (kept opts) cands)))%string
  /\ processedFiles st'
     = processedFiles st + List.length (filter (kept opts) cands)
  /\ skippedFiles st'
     = skippedFiles st + List.length (filter (fun c => negb (kept opts c)) cands)
  /\ stat_calls (effects st') = stat_calls (effects st) + List.length cands.

(** The computation [m], run from [st], follows the walk: it throws [e]
    when the walk meets the enumeration failure [e], and it returns after
    classifying [cands] otherwise. *)
Definition follows (formatFileSize : Z -> string) (opts : options)
  (m : M state unit) (fail : option error) (cands : list candidate)
  (st : state) : Prop :=
  match fail with
  | Some e => exists st', m st = (Rejected e, st')
  | None =>
      exists st',
        m st = (Fulfilled tt, st')
        /\ advanced formatFileSize opts cands st st'
  end.

(** The tree with every reserved directory emptied. *)
Fixpoint prune_entry (name : string) (n : node) {struct n} : node :=
  match n with
  | Dir listing =>
      if not_reserved name then
        match listing with
        | Rejected e => Dir (Rejected e)
        | Fulfilled entries =>
            Dir (Fulfilled
                   ((fix go (es : list (string * node)) : list (string * node) :=
                       match es with
                       | [] => []
                       | (nm, c) :: es' => (nm, prune_entry nm c) :: go es'
                       end) entries))
        end
      else Dir (Fulfilled [])
  | other => other
  end.

Fixpoint prune (entries : list dirent) : list dirent :=
  match entries with
  | [] => []
  | (name, n) :: rest => (name, prune_entry name n) :: prune rest
  end.

Definition prune_root (root : settled (list dirent)) : settled (list dirent) :=
  match root with
  | Fulfilled entries => Fulfilled (prune entries)
  | Rejected e => Rejected e
  end.

(** Two snapshots of one tree that differ only in the order in which the
    entries of a directory are enumerated. *)
Inductive same_node : node -> node -> Prop :=
| same_file : forall f, same_node (File f) (File f)
| same_special : same_node Special Special
| same_unreadable : forall e, same_node (Dir (Rejected e)) (Dir (Rejected e))
| same_dir : forall es es',
    same_entries es es' ->
    same_node (Dir (Fulfilled es)) (Dir (Fulfilled es'))
with same_entries : list dirent -> list dirent -> Prop :=
| same_nil : same_entries [] []
| same_cons : forall name n n' es es',
    same_node n n' -> same_entries es es' ->
    same_entries ((name, n) :: es) ((name, n') :: es')
| same_swap : forall a b es es',
    same_entries es es' ->
    same_entries (a :: b :: es) (b :: a :: es')
| same_trans : forall es1 es2 es3,
    same_entries es1 es2 -> same_entries es2 es3 -> same_entries es1 es3.

Inductive same_root : settled (list dirent) -> settled (list dirent) -> Prop :=
| same_root_entries : forall es es',
    same_entries es es' -> same_root (Fulfilled es) (Fulfilled es')
| same_root_unreadable : forall e, same_root (Rejected e) (Rejected e).

Scheme same_node_mut := Minimality for same_node Sort Prop
with same_entries_mut := Minimality for same_entries Sort Prop.

(** ** The command line around the pipeline: strings *)

Module Text.

(** [s.startsWith(p)] *)
Fixpoint startsWith (s p : string) {struct p} : bool :=
  match p with
  | EmptyString => true
  | String c p' =>
      match s with
      | EmptyString => false
      | String d s' => (c =? d)%char && startsWith s' p'
      end
  end.

(** [s.includes(p)] *)
Fixpoint includes (s p : string) : bool :=
  startsWith s p
  || match s with
     | EmptyString => false
     | String _ s' => includes s' p
     end.

(** [s.replace(/\/+$/, '')]: the leftmost match of the pattern is the
    whole run of slashes that ends the string. *)
Fixpoint strip_trailing_slashes (s : string) : string :=
  match s with
  | EmptyString => EmptyString
  | String c s' =>
      match strip_trailing_slashes s' with
      | EmptyString => if (c =? "/")%char then EmptyString else String c EmptyString
      | String d r => String c (String d r)
      end
  end.

(** The class [[\w-]]: letters, digits and underscore of ASCII, and the
    hyphen. *)
Definition is_word_or_hyphen (c : ascii) : bool :=
  let n := nat_of_ascii c in
  ((48 <=? n) && (n <=? 57))
  || ((65 <=? n) && (n <=? 90))
  || ((97 <=? n) && (n <=? 122))
  || (n =? 95)
  || (n =? 45).

(** [/^[\w-]+$/] *)
Fixpoint word_run (s : string) : bool :=
  match s with
  | EmptyString => false
  | String c EmptyString => is_word_or_hyphen c
  | String c s' => is_word_or_hyphen c && word_run s'
  end.

(** [/^[\w-]*\/[\w-]+$/], with [seen] telling whether a character of the
    class was read before. *)
Fixpoint short_format_from (seen : bool) (s : string) : bool :=
  match s with
  | EmptyString => false
  | String c s' =>
      if is_word_or_hyphen c then short_format_from true s'
      else if (c =? "/")%char then seen && word_run s'
      else false
  end.

(** [s.match(/^[\w-]+\/[\w-]+$/)] is not [null]: the short format
    [user/repo]. *)
Definition short_format (s : string) : bool := short_format_from false s.

(** [s.split('/')] *)
Fixpoint split_slash (s : string) : list string :=
  match s with
  | EmptyString => [EmptyString]
  | String c s' =>
      if (c =? "/")%char then EmptyString :: split_slash s'
      else
        match split_slash s' with
        | [] => [String c EmptyString]
        | seg :: segs => String c seg :: segs
        end
  end.

(** [a.pop()] on a non-empty array. *)
Definition pop (a : list string) : string := List.last a EmptyString.

(** [s.slice(n)] for [n] within the string. *)
Fixpoint drop (n : nat) (s : string) : string :=
  match n, s with
  | O, _ => s
  | Datatypes.S n', String _ s' => drop n' s'
  | Datatypes.S _, EmptyString => EmptyString
  end.

(** [s.replace(p, '')] for a string pattern: the first occurrence goes. *)
Fixpoint remove_first (s p : string) : string :=
  if startsWith s p then drop (String.length p) s
  else
    match s with
    | EmptyString => EmptyString
    | String c s' => String c (remove_first s' p)
    end.

End Text.

Import Text.

(** ** The command line around the pipeline: validation *)

(** [normalizeGitHubUrl(url)] (lines 102-126): the value returned, or the
    message of the error thrown.  The error of line 122 is thrown inside the
    [try] block and so reaches the [catch] of line 123. *)
Definition normalizeGitHubUrl (url : string) : settled string :=
  let url := strip_trailing_slashes url in
  let tried : settled string :=
    if startsWith url "git@github.com:" then Fulfilled url
    else if startsWith url "https://github.com/" then Fulfilled url
    else if short_format url then Fulfilled ("https://github.com/" ++ url)%string
    else Rejected "Invalid GitHub repository URL format" in
  match tried with
  | Fulfilled normalized => Fulfilled normalized
  | Rejected _ => Rejected ("Invalid GitHub URL: " ++ url)%string
  end.

(** [url.split('/').pop().replace('.git', '')] (line 186). *)
Definition repoName_of (url : string) : string :=
  remove_first (pop (split_slash url)) ".git".

(** What [validateInput] returns. *)
Inductive source : Type :=
| Local (path : string)
| Remote (url : string).

(** The flags of [cli] (lines 71-93); [output] is absent unless given. *)
Record flags : Type := mkFlags {
  flag_output : option string;
  flag_threshold : Q;
  flag_includeAll : bool;
  flag_local : bool;
  flag_debug : bool
}.

(** ** The command line around the pipeline: effects *)

(** What the command line does to the outside, beyond the effects of
    [processFiles]: calls to [fs] with the paths as the code passes them,
    the [git] command, the console and the end of the process.  The colours
    of [chalk] are left out of the texts. *)
Inductive action : Type :=
| Effect (ev : event)
| Stat (p : string)
| Mkdir (p : string)
| Exec (command : string)
| Readdir (p : string)
| WriteFile (p data : string)
| Rm (p : string)
| ConsoleLogError (msg : string) (err : error)
| ConsoleErrorText (msg : string)
| ConsoleErrorObject (err : error)
| ProcessExit (code : Z).

(** What the outside answers: the clock, the temporary directory of the
    system, and the outcome of each call, by its arguments. *)
Record machine : Type := mkMachine {
  date_now : nat;
  os_tmpdir : string;
  stat_isDirectory : string -> settled bool;
  mkdir : string -> settled unit;
  execAsync : string -> settled unit;
  readdir : string -> settled (list string);
  writeFile : string -> string -> settled unit;
  rm : string -> settled unit;
  snapshot : string -> settled (list dirent)
}.

Definition act (a : action) : M (list action) unit :=
  modify (fun trace => trace ++ [a]).

Section CommandLine.

Variable formatFileSize : Z -> string.
(** [path.join] and [path.basename] on the strings the user gives, and
    the resolution of such a string into components. *)
Variable path_join : string -> string -> string.
Variable path_basename : string -> string.
Variable path_resolve : string -> path.
Variable E : env.
Variable W : machine.
(** [cli.input] and [cli.flags]. *)
Variable cli_input : list string.
Variable cli_flags : flags.

Definition spinner_on : bool := negb (NODE_ENV_is_test E).

(** [validateLocalRepo(repoPath)] (lines 133-143). *)
Definition validateLocalRepo (repoPath : string) : M (list action) bool :=
  try_catch
    (act (Stat repoPath) ;;
     stats <- await (stat_isDirectory W repoPath) ;;
     let gitPath := path_join repoPath ".git" in
     act (Stat gitPath) ;;
     gitStats <- await (stat_isDirectory W gitPath) ;;
     ret (stats && gitStats))
    (fun _ => ret false).

(** [validateInput(input, flags)] (lines 151-171). *)
Definition validateInput (input : list string) (fl : flags)
  : M (list action) source :=
  match input with
  | [] => throw "Repository URL or path is required"
  | src :: _ =>
      if flag_local fl then
        isValidRepo <- validateLocalRepo src ;;
        if negb isValidRepo then
          throw "Invalid local repository path. Make sure it's a Git repository."
        else ret (Local src)
      else if negb (includes src "github.com") && negb (short_format src) then
        throw "Only GitHub repositories or local paths (with --local flag) are supported"
      else ret (Remote src)
  end.

(** [cleanup(directory)] (lines 360-368). *)
Definition cleanup (directory : string) : M (list action) unit :=
  try_catch
    (act (Rm directory) ;; await (rm W directory))
    (fun _ =>
       when (negb (NODE_ENV_is_test E))
         (act (ConsoleErrorText "Warning: Failed to clean up temporary files"))).

(** [downloadRepository(url)] (lines 179-233): [tempDir] and
    [repoName]. *)
Definition downloadRepository (url : string)
  : M (list action) (string * string) :=
  when spinner_on (act (Effect (OraStart "Downloading repository..."))) ;;
  let tempDir :=
    path_join (os_tmpdir W) ("git2txt-" ++ string_of_nat (date_now W)) in
  try_catch
    (normalizedUrl <- await (normalizeGitHubUrl url) ;;
     let repoName := repoName_of url in
     when (flag_debug cli_flags)
       (act (Effect (ConsoleLog ("Debug: Normalized URL: " ++ normalizedUrl))) ;;
        act (Effect (ConsoleLog ("Debug: Temp directory: " ++ tempDir)))) ;;
     act (Mkdir tempDir) ;;
     await (mkdir W tempDir) ;;
     let cloneCommand :=
       ("git clone --depth 1 " ++ normalizedUrl ++ " " ++ tempDir)%string in
     when (flag_debug cli_flags)
       (act (Effect (ConsoleLog ("Debug: Executing command: " ++ cloneCommand)))) ;;
     act (Exec cloneCommand) ;;
     await (execAsync W cloneCommand) ;;
     act (Readdir tempDir) ;;
     files <- await (readdir W tempDir) ;;
     (if List.length files =? 0
      then throw "Repository appears to be empty"
      else ret tt) ;;
     when spinner_on
       (act (Effect (OraSucceed "Repository downloaded successfully"))) ;;
     ret (tempDir, repoName))
    (fun err =>
       when spinner_on
         (act (Effect (OraFail "Failed to download repository"))) ;;
       when (flag_debug cli_flags)
         (act (ConsoleLogError "Debug: Full error:" err)) ;;
       when (negb (NODE_ENV_is_test E))
         (act (ConsoleErrorText
                 "Error: Could not access the repository. Please check:") ;;
          act (ConsoleErrorText "  1. The repository exists and is public") ;;
          act (ConsoleErrorText "  2. You have the correct repository URL") ;;
          act (ConsoleErrorText
                 "  3. GitHub is accessible from your network") ;;
          act (ConsoleErrorText
                 "  4. Git is installed and accessible from command line")) ;;
       cleanup tempDir ;;
       throw err).

(** [writeOutput(content, outputPath)] (lines 340-353). *)
Definition writeOutput (content outputPath : string) : M (list action) unit :=
  when spinner_on (act (Effect (OraStart "Writing output file..."))) ;;
  try_catch
    (act (WriteFile outputPath content) ;;
     await (writeFile W outputPath content) ;;
     when spinner_on
       (act (Effect (OraSucceed ("Output saved to " ++ outputPath)))))
    (fun err =>
       when spinner_on (act (Effect (OraFail "Failed to write output file"))) ;;
       when (negb (NODE_ENV_is_test E))
         (act (Effect (ConsoleError "Write error:" err))) ;;
       throw err).

(** The call [processFiles(targetDir, { threshold, includeAll })] of
    line 390, on the tree that is below [targetDir] at that time. *)
Definition processFiles_call (targetDir : string) (opts : options)
  : M (list action) string :=
  fun trace =>
    let (r, evs) :=
      processFiles formatFileSize E (path_resolve targetDir) opts
        (snapshot W targetDir) [] in
    (r, trace ++ map Effect evs).

(** [cli.flags.output || `${repoName}.txt`] (line 389). *)
Definition outputPath_of (repoName : string) : string :=
  match flag_output cli_flags with
  | Some o => if (o =? "")%string then (repoName ++ ".txt")%string else o
  | None => (repoName ++ ".txt")%string
  end.

(** [main()] (lines 374-410).  [process.exit(1)] ends the process; it is
    the last statement of the [catch] block. *)
Definition main : M (list action) unit :=
  try_catch
    (result <- validateInput cli_input cli_flags ;;
     target <- match result with
               | Local p => ret (p, path_basename p)
               | Remote url => downloadRepository url
               end ;;
     let targetDir := fst target in
     let repoName := snd target in
     let outputPath := outputPath_of repoName in
     content <- processFiles_call targetDir
                  (mkOptions (flag_threshold cli_flags)
                             (flag_includeAll cli_flags)) ;;
     (if (content =? "")%string
      then throw "No content was generated from the repository"
      else ret tt) ;;
     writeOutput content outputPath ;;
     match result with
     | Remote _ => cleanup targetDir
     | Local _ => ret tt
     end)
    (fun err =>
       act (ConsoleErrorText (String "010" "An error occurred:")) ;;
       act (if (err =? "")%string then ConsoleErrorObject err
            else ConsoleErrorText err) ;;
       act (ProcessExit 1)).

End CommandLine.

(** ** Reading the trace of the command line *)

(** The computation [m] only adds to the trace: from any trace it settles
    with some [r] after adding some [acts], and [Q r acts] holds. *)
Definition emits (A : Type) (m : M (list action) A)
  (Q : settled A -> list action -> Prop) : Prop :=
  forall trace, exists r acts, m trace = (r, trace ++ acts) /\ Q r acts.

(** The actions that change the file system or run a program. *)
Definition changes_files (a : action) : bool :=
  match a with
  | Mkdir _ | Exec _ | WriteFile _ _ | Rm _ => true
  | _ => false
  end.

(** The actions of [validateInput]. *)
Definition is_stat (a : action) : bool :=
  match a with
  | Stat _ => true
  | _ => false
  end.

(** The effects of a spinner and of the console. *)
Definition is_report (ev : event) : bool :=
  match ev with
  | FsReaddir _ | FsStat _ | IsBinaryFile _ | FsReadFile _ => false
  | _ => true
  end.

(** The actions of [downloadRepository] that has [tempDir] as its
    temporary directory: reports, [fs.mkdir], the command, [fs.readdir] and
    [fs.rm] on [tempDir]. *)
Definition download_action (tempDir : string) (a : action) : bool :=
  match a with
  | Effect ev => is_report ev
  | Mkdir p | Readdir p | Rm p => (p =? tempDir)%string
  | Exec _ | ConsoleLogError _ _ | ConsoleErrorText _ => true
  | _ => false
  end.

(** The actions of [writeOutput]: reports and the one [fs.writeFile]. *)
Definition write_action (outputPath content : string) (a : action) : bool :=
  match a with
  | Effect ev => is_report ev
  | WriteFile p data => (p =? outputPath)%string && (data =? content)%string
  | _ => false
  end.

(** The temporary directory of [downloadRepository] (line 181). *)
Definition tempDir_of (path_join : string -> string -> string) (W : machine)
  : string :=
  path_join (os_tmpdir W) ("git2txt-" ++ string_of_nat (date_now W))%string.

(** ** What a stretch of the run keeps *)

(** From [st] to [st'] the text has only been appended to, no counter has
    gone down and the trace has only grown, by calls to the file system
    alone when [DEBUG] is unset. *)
Definition extends (E : env) (st st' : state) : Prop :=
  exists suffix evs,
    output st' = (output st ++ suffix)%string
    /\ processedFiles st <= processedFiles st'
    /\ skippedFiles st <= skippedFiles st'
    /\ effects st' = effects st ++ evs
    /\ (DEBUG E = false -> Forall (fun ev => is_report ev = false) evs).

(** ** What one call adds to the trace *)



(** ** Lines of the returned text *)

(** [s.includes('\n')] *)
Fixpoint has_line_feed (s : string) : bool :=
  match s with
  | EmptyString => false
  | String c s' => (c =? "010")%char || has_line_feed s'
  end.

(** [s.split('\n')]: the lines of a text, in the words of the
    specification ("on its own line"). *)
Fixpoint lines (s : string) : list string :=
  match s with
  | EmptyString => [EmptyString]
  | String c s' =>
      if (c =? "010")%char then EmptyString :: lines s'
      else
        match lines s' with
        | [] => [String c EmptyString]
        | l :: ls => String c l :: ls
        end
  end.

(** ** A machine to run the command line on *)

Module Desk.

(** Stand-ins for [path.join], [path.basename] and [path.resolve] on
    paths that need no normalisation. *)
Definition join2 (a b : string) : string := (a ++ "/" ++ b)%string.

Definition basename (p : string) : string := pop (split_slash p).

Definition resolve (p : string) : path :=
  filter (fun seg => negb (seg =? "")%string) (split_slash p).

Definition text (size : Z) (content : string) : node :=
  File (mkFile (Fulfilled size) (Fulfilled false) (Fulfilled content)).

Definition tree : settled (list dirent) :=
  Fulfilled [("a.txt", text 5 "hello")].

(** A machine on which every call succeeds. *)
Definition fine : machine :=
  mkMachine 42 "/tmp"
    (fun _ => Fulfilled true)
    (fun _ => Fulfilled tt)
    (fun _ => Fulfilled tt)
    (fun _ => Fulfilled ["README.md"])
    (fun _ _ => Fulfilled tt)
    (fun _ => Fulfilled tt)
    (fun _ => tree).

(** The same machine with a [git] that fails and an [fs.rm] that fails. *)
Definition offline : machine :=
  mkMachine 42 "/tmp"
    (fun _ => Fulfilled true)
    (fun _ => Fulfilled tt)
    (fun _ => Rejected "Command failed: git clone")
    (fun _ => Fulfilled ["README.md"])
    (fun _ _ => Fulfilled tt)
    (fun _ => Rejected "EBUSY")
    (fun _ => tree).

(** The same machine with a disk that cannot be written. *)
Definition readonly : machine :=
  mkMachine 42 "/tmp"
    (fun _ => Fulfilled true)
    (fun _ => Fulfilled tt)
    (fun _ => Fulfilled tt)
    (fun _ => Fulfilled ["README.md"])
    (fun _ _ => Rejected "EROFS")
    (fun _ => Fulfilled tt)
    (fun _ => tree).

Definition bytes (size : Z) : string :=
  (NilZero.string_of_int (Z.to_int size) ++ " B")%string.

Definition production : env := mkEnv false false.

Definition remote_flags : flags :=
  mkFlags None (3602879701896397 # 36028797018963968) false false false.

Definition local_flags : flags :=
  mkFlags (Some "out.txt") (3602879701896397 # 36028797018963968)
    false true false.

End Desk.

(** ** Running the model on small trees *)

Module Scenario.

(** A stand-in for [filesize]: the number of bytes and the unit. *)
Definition bytes (size : Z) : string :=
  NilZero.string_of_int (Z.to_int size) ++ " B".

Definition text (size : Z) (content : string) : node :=
  File (mkFile (Fulfilled size) (Fulfilled false) (Fulfilled content)).


Definition quiet : env := mkEnv true false.

Definition root_dir : path := ["tmp"; "repo"].

Definition one_megabyte : options := mkOptions (inject_Z 1) false.

(** The default of the [--threshold] flag, 0.1, as the double it is. *)
Definition tenth : Q := 3602879701896397 # 36028797018963968.

(** [a.txt] and [sub/b.txt]. *)
Definition two_files : settled (list dirent) :=
  Fulfilled [("a.txt", text 5 "hello");
             ("sub", Dir (Fulfilled [("b.txt", text 5 "world")]))].

(** The text and the final state of the run on [two_files]. *)
Definition two_files_run : string * state :=
  match processFiles_run bytes quiet root_dir one_megabyte two_files [] with
  | (Fulfilled out, st) => (out, st)
  | (Rejected _, st) => ("", st)
  end.

Definition big_bin : settled (list dirent) :=
  Fulfilled [("big.bin", text 2097152 "0123")].

Definition with_git : settled (list dirent) :=
  Fulfilled [(".git", Dir (Fulfilled [("config", text 7 "[core]")]));
             ("a.txt", text 5 "hello")].


(** A file whose name holds a line feed. *)
Definition two_line_name : string :=
  String "a" (String "010" "File: b").

Definition forged : settled (list dirent) :=
  Fulfilled [(two_line_name, text 1 "x")].

End Scenario.

Example scenario_two_files :
  processFiles_run Scenario.bytes Scenario.quiet Scenario.root_dir
    Scenario.one_megabyte Scenario.two_files [] =
  (Fulfilled
     (newline ++ repeat_string "=" 80 ++ newline
      ++ "File: a.txt" ++ newline ++ "Size: 5 B" ++ newline
      ++ repeat_string "=" 80 ++ newline ++ newline
      ++ "hello" ++ newline
      ++ newline ++ repeat_string "=" 80 ++ newline
      ++ "File: sub/b.txt" ++ newline ++ "Size: 5 B" ++ newline
      ++ repeat_string "=" 80 ++ newline ++ newline
      ++ "world" ++ newline)%string,
   mkState
     (newline ++ repeat_string "=" 80 ++ newline
      ++ "File: a.txt" ++ newline ++ "Size: 5 B" ++ newline
      ++ repeat_string "=" 80 ++ newline ++ newline
      ++ "hello" ++ newline
      ++ newline ++ repeat_string "=" 80 ++ newline
      ++ "File: sub/b.txt" ++ newline ++ "Size: 5 B" ++ newline
      ++ repeat_string "=" 80 ++ newline ++ newline
      ++ "world" ++ newline)%string
     2 0
     [FsReaddir ["tmp"; "repo"];
      FsStat ["tmp"; "repo"; "a.txt"];
      IsBinaryFile ["tmp"; "repo"; "a.txt"];
      FsReadFile ["tmp"; "repo"; "a.txt"];
      FsReaddir ["tmp"; "repo"; "sub"];
      FsStat ["tmp"; "repo"; "sub"; "b.txt"];
      IsBinaryFile ["tmp"; "repo"; "sub"; "b.txt"];
      FsReadFile ["tmp"; "repo"; "sub"; "b.txt"]]).
Proof. vm_compute. reflexivity. Qed.

Example scenario_big_file :
  processFiles_run Scenario.bytes (mkEnv false true) Scenario.root_dir
    (mkOptions Scenario.tenth false) Scenario.big_bin [] =
  (Fulfilled "",
   mkState "" 0 1
     [OraStart "Processing files...";
      FsReaddir ["tmp"; "repo"];
      FsStat ["tmp"; "repo"; "big.bin"];
      ConsoleLog "Skipping large file: big.bin";
      OraSucceed "Processed 0 files successfully (1 skipped)";
      ConsoleWarn "Warning: No files were processed"]).
Proof. vm_compute. reflexivity. Qed.

Example scenario_git_directory :
  processFiles Scenario.bytes Scenario.quiet Scenario.root_dir
    Scenario.one_megabyte Scenario.with_git [] =
  (Fulfilled
     (newline ++ repeat_string "=" 80 ++ newline
      ++ "File: a.txt" ++ newline ++ "Size: 5 B" ++ newline
      ++ repeat_string "=" 80 ++ newline ++ newline
      ++ "hello" ++ newline)%string,
   [FsReaddir ["tmp"; "repo"];
    FsStat ["tmp"; "repo"; "a.txt"];
    IsBinaryFile ["tmp"; "repo"; "a.txt"];
    FsReadFile ["tmp"; "repo"; "a.txt"]]).
Proof. vm_compute. reflexivity. Qed.

Example scenario_nested_node_modules :
  processFiles_run Scenario.bytes Scenario.quiet Scenario.root_dir
    (mkOptions (inject_Z 1) true)
    (Fulfilled
       [("pkg", Dir (Fulfilled
           [("node_modules", Dir (Fulfilled [("x.js", Scenario.text 3 "x()")]));
            (".git", Dir (Rejected "EACCES"))]))]) [] =
  (Fulfilled "",
   mkState "" 0 0 [FsReaddir ["tmp"; "repo"]; FsReaddir ["tmp"; "repo"; "pkg"]]).
Proof. vm_compute. reflexivity. Qed.

Example scenario_unreadable_subdirectory :
  processFiles Scenario.bytes (mkEnv false false) Scenario.root_dir
    Scenario.one_megabyte
    (Fulfilled [("a.txt", Scenario.text 5 "hello");
                ("locked", Dir (Rejected "EACCES"))]) [] =
  (Rejected "EACCES",
   [OraStart "Processing files...";
    FsReaddir ["tmp"; "repo"];
    FsStat ["tmp"; "repo"; "a.txt"];
    IsBinaryFile ["tmp"; "repo"; "a.txt"];
    FsReadFile ["tmp"; "repo"; "a.txt"];
    FsReaddir ["tmp"; "repo"; "locked"];
    OraFail "Failed to process files"]).
Proof. vm_compute. reflexivity. Qed.

(** ** Strings, paths and traces *)

Lemma append_assoc (a b c : string) : ((a ++ b) ++ c = a ++ (b ++ c))%string.
Proof.
  induction a as [|ch a IH]; simpl; [reflexivity | now rewrite IH].
Qed.

Lemma append_nil_r (a : string) : (a ++ "" = a)%string.
Proof.
  induction a as [|ch a IH]; simpl; [reflexivity | now rewrite IH].
Qed.

Lemma concat_nil_app (l1 l2 : list string) :
  String.concat "" (l1 ++ l2)
  = (String.concat "" l1 ++ String.concat "" l2)%string.
Proof.
  induction l1 as [|x l1 IH]; [reflexivity|].
  destruct l1 as [|y l1].
  - simpl. destruct l2; simpl; [now rewrite append_nil_r | reflexivity].
  - change (String.concat "" ((x :: y :: l1) ++ l2))
      with (x ++ "" ++ String.concat "" ((y :: l1) ++ l2))%string.
    rewrite IH. simpl. now rewrite append_assoc.
Qed.

Lemma relative_components_below (dir segs : path) :
  relative_components dir (dir ++ segs) = segs.
Proof.
  induction dir as [|d dir IH]; simpl.
  - destruct segs; reflexivity.
  - now rewrite String.eqb_refl.
Qed.

Lemma relative_below (dir segs : path) :
  relative dir (dir ++ segs) = String.concat "/" segs.
Proof. unfold relative. now rewrite relative_components_below. Qed.

Lemma stat_calls_app (t1 t2 : list event) :
  stat_calls (t1 ++ t2) = stat_calls t1 + stat_calls t2.
Proof.
  induction t1 as [|ev t1 IH]; simpl; [reflexivity|].
  destruct ev; simpl; rewrite IH; reflexivity.
Qed.


(** ** The loop body, case by case *)

Section Steps.

Variable formatFileSize : Z -> string.
Variable E : env.
Variable directory : path.
Variable opts : options.

#[local] Abbreviation processEntry' :=
  (processEntry formatFileSize E directory opts).
#[local] Abbreviation processEntries' :=
  (processEntries formatFileSize E directory opts).
#[local] Abbreviation processDirectory' :=
  (processDirectory formatFileSize E directory opts).

Lemma processEntry_dir (dir : path) (name : string)
  (listing : settled (list dirent)) :
  processEntry' dir name (Dir listing)
  = if not_reserved name then processDirectory' (join dir name) listing
    else ret tt.
Proof.
  simpl. destruct (not_reserved name); [|reflexivity].
  unfold processDirectory. destruct listing as [es|e]; [|reflexivity].
  assert (H : forall l,
    (fix loop (es0 : list (string * node)) : M state unit :=
       match es0 with
       | [] => ret tt
       | (nm, c) :: es' => processEntry' (join dir name) nm c ;; loop es'
       end) l = processEntries' (join dir name) l).
  { induction l as [|[nm c] l IH]; simpl; [reflexivity | now rewrite IH]. }
  rewrite H. reflexivity.
Qed.

Lemma processDirectory_unreadable (dir : path) (e : error) (st : state) :
  exists st', processDirectory' dir (Rejected e) st = (Rejected e, st').
Proof. eexists. reflexivity. Qed.

(** Lines 261-267: an entry that is not a directory to recurse into and
    that is not a file is passed over. *)
Lemma processEntry_passed_over (dir : path) (name : string) (n : node)
  (st : state) :
  isDirectory n && not_reserved name = false ->
  isFile n = false ->
  processEntry' dir name n st = (Fulfilled tt, st).
Proof.
  destruct n as [f|listing|]; cbn [isDirectory isFile andb];
    intros Hdir Hfile; try discriminate; [|reflexivity].
  now rewrite processEntry_dir, Hdir.
Qed.

Lemma processEntry_file (dir : path) (name : string) (f : file) (st : state) :
  exists st',
    processEntry' dir name (File f) st = (Fulfilled tt, st')
    /\ locals st'
       = settle formatFileSize (relative directory (join dir name))
           (classify opts f) st
    /\ stat_calls (effects st') = Datatypes.S (stat_calls (effects st)).
Proof.
  cbn [processEntry].
  unfold processDirectory_try, processDirectory_catch, classify.
  destruct f as [[size|e1] [[|]|e2] [content|e3]];
    cbn [f_stat f_isBinary f_content];
    destruct (includeAll opts); cbn [negb andb];
    destruct (DEBUG E);
    cbv [try_catch bind when emit output_append
      processedFiles_incr skippedFiles_incr modify await ret throw
      output processedFiles skippedFiles effects];
    try destruct (exceeds size (thresholdBytes opts));
    cbv beta iota;
    (eexists; split; [reflexivity|]; split;
     [ unfold locals, settle, record, newline, delimiter;
       cbn [output processedFiles skippedFiles effects];
       rewrite ?append_assoc; reflexivity
     | cbn [output processedFiles skippedFiles effects];
       rewrite ?stat_calls_app; simpl; lia ]).
Qed.

(** ** The walk, by induction on the snapshot *)

Lemma walk_entry_dir (rel : list string) (name : string)
  (es : list dirent) :
  walk_entry rel name (Dir (Fulfilled es))
  = if not_reserved name then walk (rel ++ [name]) es else [].
Proof.
  simpl. destruct (not_reserved name); [|reflexivity].
  induction es as [|[nm c] es IH]; simpl; [reflexivity | now rewrite IH].
Qed.

Lemma failure_entry_dir (name : string) (es : list dirent) :
  failure_entry name (Dir (Fulfilled es))
  = if not_reserved name then failure es else None.
Proof.
  simpl. destruct (not_reserved name); [|reflexivity].
  induction es as [|[nm c] es IH]; simpl; [reflexivity | now rewrite IH].
Qed.

Lemma prune_entry_dir (name : string) (es : list dirent) :
  prune_entry name (Dir (Fulfilled es))
  = if not_reserved name then Dir (Fulfilled (prune es))
    else Dir (Fulfilled []).
Proof.
  simpl. destruct (not_reserved name); reflexivity.
Qed.

Lemma advanced_refl (st : state) : advanced formatFileSize opts [] st st.
Proof.
  unfold advanced. simpl. rewrite append_nil_r. repeat split; lia.
Qed.

Lemma advanced_app (c1 c2 : list candidate) (st st1 st2 : state) :
  advanced formatFileSize opts c1 st st1 ->
  advanced formatFileSize opts c2 st1 st2 ->
  advanced formatFileSize opts (c1 ++ c2) st st2.
Proof.
  unfold advanced. intros (Ho1 & Hp1 & Hs1 & Ht1) (Ho2 & Hp2 & Hs2 & Ht2).
  rewrite !filter_app, map_app, concat_nil_app, !length_app.
  rewrite Ho2, Ho1, Hp2, Hp1, Hs2, Hs1, Ht2, Ht1, append_assoc.
  repeat split; lia.
Qed.

Lemma advanced_file (relativePath : list string) (f : file) (st st' : state) :
  locals st'
  = settle formatFileSize (String.concat "/" relativePath) (classify opts f) st ->
  stat_calls (effects st') = Datatypes.S (stat_calls (effects st)) ->
  advanced formatFileSize opts [(relativePath, f)] st st'.
Proof.
  unfold advanced, locals, settle. intros Hl Ht. rewrite Ht.
  cbn [filter]. unfold kept. cbn [fst snd].
  destruct (classify opts f) eqn:Hc; inversion Hl as [[Ho Hp Hs]];
    cbn [negb map String.concat List.length];
    unfold record_of; cbn [fst snd]; rewrite ?Hc;
    rewrite ?append_nil_r; repeat split; solve [assumption | lia].
Qed.

Lemma advanced_emit (ev : event) (st : state) :
  stat_calls [ev] = 0 ->
  advanced formatFileSize opts [] st (snd (emit ev st)).
Proof.
  intros Hev. unfold advanced. simpl.
  rewrite append_nil_r, stat_calls_app, Hev. repeat split; lia.
Qed.

Lemma follows_cons (dir rel : path) (name : string) (n : node)
  (rest : list dirent) (st : state) :
  (forall st0,
     follows formatFileSize opts (processEntry' dir name n)
       (failure_entry name n) (walk_entry rel name n) st0) ->
  (forall st0,
     follows formatFileSize opts (processEntries' dir rest)
       (failure rest) (walk rel rest) st0) ->
  follows formatFileSize opts (processEntries' dir ((name, n) :: rest))
    (failure ((name, n) :: rest)) (walk rel ((name, n) :: rest)) st.
Proof.
  intros Hn Hrest. specialize (Hn st).
  unfold follows in *. cbn [failure walk processEntries]. unfold bind.
  destruct (failure_entry name n) as [e|].
  - destruct Hn as (st1 & ->). now exists st1.
  - destruct Hn as (st1 & -> & Hadv1). specialize (Hrest st1).
    destruct (failure rest) as [e|].
    + destruct Hrest as (st2 & ->). now exists st2.
    + destruct Hrest as (st2 & -> & Hadv2). exists st2. split; [reflexivity|].
      eapply advanced_app; eassumption.
Qed.

Lemma processEntry_follows (n : node) :
  forall (rel : list string) (name : string) (st : state),
    follows formatFileSize opts (processEntry' (directory ++ rel) name n)
      (failure_entry name n) (walk_entry rel name n) st.
Proof.
  induction n as [f | | e | es IH] using node_induction; intros rel name st.
  - cbn [failure_entry walk_entry follows].
    destruct (processEntry_file (directory ++ rel) name f st)
      as (st' & Hrun & Hl & Ht).
    exists st'. split; [exact Hrun|].
    apply advanced_file; [|exact Ht].
    unfold join in Hl. now rewrite <- app_assoc, relative_below in Hl.
  - exists st. split; [reflexivity | apply advanced_refl].
  - rewrite processEntry_dir. cbn [failure_entry walk_entry].
    destruct (not_reserved name).
    + eexists. reflexivity.
    + exists st. split; [reflexivity | apply advanced_refl].
  - rewrite processEntry_dir, failure_entry_dir, walk_entry_dir.
    destruct (not_reserved name).
    2:{ exists st. split; [reflexivity | apply advanced_refl]. }
    unfold join. rewrite <- app_assoc.
    assert (Hes : forall st0,
      follows formatFileSize opts
        (processEntries' (directory ++ rel ++ [name]) es)
        (failure es) (walk (rel ++ [name]) es) st0).
    { induction IH as [|[nm c] rest Hc _ IHrest]; intros st0.
      - exists st0. split; [reflexivity | apply advanced_refl].
      - apply follows_cons; [intros st1; apply Hc | exact IHrest]. }
    specialize (Hes (snd (emit (FsReaddir (directory ++ rel ++ [name])) st))).
    unfold follows in *.
    change (processDirectory' (directory ++ rel ++ [name]) (Fulfilled es) st)
      with (processEntries' (directory ++ rel ++ [name]) es
              (snd (emit (FsReaddir (directory ++ rel ++ [name])) st))).
    destruct (failure es) as [e|]; [exact Hes|].
    destruct Hes as (st' & Hrun & Hadv). exists st'. split; [exact Hrun|].
    change (walk (rel ++ [name]) es) with ([] ++ walk (rel ++ [name]) es).
    eapply advanced_app; [|exact Hadv].
    now apply advanced_emit.
Qed.

Lemma processEntries_follows (es : list dirent) :
  forall (rel : list string) (st : state),
    follows formatFileSize opts (processEntries' (directory ++ rel) es)
      (failure es) (walk rel es) st.
Proof.
  induction es as [|[name n] rest IH]; intros rel st.
  - exists st. split; [reflexivity | apply advanced_refl].
  - apply follows_cons; [intros st0; apply processEntry_follows|].
    intros st0. apply IH.
Qed.

Lemma processDirectory_follows (root : settled (list dirent)) (st : state) :
  follows formatFileSize opts (processDirectory' directory root)
    (fatal root) (visited root) st.
Proof.
  destruct root as [es|e]; cbn [fatal visited].
  - pose proof (processEntries_follows es []
                  (snd (emit (FsReaddir directory) st))) as Hes.
    rewrite app_nil_r in Hes. unfold follows in *.
    change (processDirectory' directory (Fulfilled es) st)
      with (processEntries' directory es (snd (emit (FsReaddir directory) st))).
    destruct (failure es) as [e|]; [exact Hes|].
    destruct Hes as (st' & Hrun & Hadv). exists st'. split; [exact Hrun|].
    change (walk [] es) with ([] ++ walk [] es).
    eapply advanced_app; [|exact Hadv].
    now apply advanced_emit.
  - eexists. reflexivity.
Qed.

#[local] Abbreviation processFiles_run' :=
  (processFiles_run formatFileSize E directory opts).

Lemma advanced_trans_nil (cands : list candidate) (st st1 st2 : state) :
  advanced formatFileSize opts cands st st1 ->
  advanced formatFileSize opts [] st1 st2 ->
  advanced formatFileSize opts cands st st2.
Proof.
  intros H1 H2. rewrite <- (app_nil_r cands). eapply advanced_app; eassumption.
Qed.

Lemma advanced_when_emit (c : bool) (ev : event) (st : state) :
  stat_calls [ev] = 0 ->
  advanced formatFileSize opts [] st (snd (when c (emit ev) st)).
Proof.
  intros Hev. destruct c; [now apply advanced_emit | apply advanced_refl].
Qed.

Lemma processFiles_run_follows (root : settled (list dirent))
  (world : list event) :
  match fatal root with
  | Some e => exists st, processFiles_run' root world = (Rejected e, st)
  | None =>
      exists st,
        processFiles_run' root world = (Fulfilled (output st), st)
        /\ advanced formatFileSize opts (visited root) (initial world) st
        /\ (NODE_ENV_is_test E = false ->
            In (OraSucceed
                  (succeed_text (processedFiles st) (skippedFiles st)))
               (effects st))
  end.
Proof.
  unfold processFiles_run, processFiles_body.
  set (spinner := negb (NODE_ENV_is_test E)).
  set (st0 := snd (when spinner (emit (OraStart "Processing files..."))
                     (initial world))).
  assert (H0 : advanced formatFileSize opts [] (initial world) st0)
    by now apply advanced_when_emit.
  pose proof (processDirectory_follows root st0) as Hdir.
  unfold follows in Hdir.
  assert (Hstart : forall A (k : unit -> M state A),
    bind (when spinner (emit (OraStart "Processing files..."))) k
      (initial world) = k tt st0).
  { intros A k. unfold st0. now destruct spinner. }
  rewrite Hstart. unfold try_catch.
  destruct (fatal root) as [e|].
  - unfold bind at 1. destruct Hdir as (st1 & ->).
    destruct spinner; eexists; reflexivity.
  - unfold bind at 1. destruct Hdir as (st1 & -> & Hadv).
    set (ev1 := OraSucceed
                  (succeed_text (processedFiles st1) (skippedFiles st1))).
    set (ev2 := ConsoleWarn "Warning: No files were processed").
    set (c2 := (processedFiles st1 =? 0) && DEBUG E).
    exists (snd (when c2 (emit ev2) (snd (when spinner (emit ev1) st1)))).
    split; [|split].
    + unfold bind, get. fold ev1. fold c2.
      destruct spinner, c2; reflexivity.
    + change (visited root) with ([] ++ visited root).
      eapply advanced_app; [exact H0|].
      eapply advanced_trans_nil; [|now apply advanced_when_emit].
      eapply advanced_trans_nil; [|now apply advanced_when_emit].
      exact Hadv.
    + intros Htest. unfold spinner. rewrite Htest. cbn [negb when].
      replace (OraSucceed _) with ev1 by (destruct c2; reflexivity).
      destruct c2; cbn [when emit modify snd effects ret];
        rewrite ?in_app_iff; cbn [In]; auto.
Qed.

End Steps.

(** ** The trace of one call *)











(** ** Properties of the specification *)

(** A stretch of the run moves exactly one of the two counters by one for
    each candidate. *)
Lemma advanced_counters (formatFileSize : Z -> string) (opts : options)
  (cands : list candidate) (st st' : state) :
  advanced formatFileSize opts cands st st' ->
  processedFiles st' + skippedFiles st'
  = processedFiles st + skippedFiles st + List.length cands.
Proof.
  intros (_ & Hp & Hs & _). rewrite Hp, Hs.
  pose proof (filter_length (kept opts) cands). lia.
Qed.

(** C1. When a run completes without a fatal error, [processedFiles] plus
    [skippedFiles] is the number of regular files visited, which is also the
    number of [fs.stat] calls of the run; the body of the loop moves exactly
    one of the two counters, by one, for a regular file, and leaves the
    state as it is for a reserved directory and for an entry that is neither
    a file nor a directory; a directory adds to the visited files those
    below it and nothing for itself. *)
Theorem counters_partition_visited_files :
  forall (formatFileSize : Z -> string) (E : env) (directory : path)
         (opts : options) (root : settled (list dirent))
         (world : list event) (out : string) (st : state),
    processFiles_run formatFileSize E directory opts root world
    = (Fulfilled out, st) ->
    processedFiles st + skippedFiles st = List.length (visited root)
    /\ stat_calls (effects st) = stat_calls world + List.length (visited root)
    /\ (forall dir name f st0,
          exists st1,
            processEntry formatFileSize E directory opts dir name (File f) st0
            = (Fulfilled tt, st1)
            /\ ((processedFiles st1 = Datatypes.S (processedFiles st0)
                 /\ skippedFiles st1 = skippedFiles st0)
                \/ (processedFiles st1 = processedFiles st0
                    /\ skippedFiles st1 = Datatypes.S (skippedFiles st0))))
    /\ (forall dir name listing st0,
          not_reserved name = false ->
          processEntry formatFileSize E directory opts dir name (Dir listing) st0
          = (Fulfilled tt, st0)
          /\ forall rel, walk_entry rel name (Dir listing) = [])
    /\ (forall dir name st0,
          processEntry formatFileSize E directory opts dir name Special st0
          = (Fulfilled tt, st0)
          /\ forall rel, walk_entry rel name Special = [])
    /\ (forall rel name entries,
          not_reserved name = true ->
          walk_entry rel name (Dir (Fulfilled entries))
          = walk (rel ++ [name]) entries).
Proof.
  intros formatFileSize E directory opts root world out st Hrun.
  pose proof (processFiles_run_follows formatFileSize E directory opts
                root world) as H.
  destruct (fatal root) as [e|].
  { destruct H as (st' & H). rewrite H in Hrun. discriminate. }
  destruct H as (st' & H & Hadv & _). rewrite H in Hrun.
  injection Hrun as _ <-.
  split; [|split; [|split; [|split; [|split]]]].
  - apply advanced_counters in Hadv. cbn in Hadv. lia.
  - destruct Hadv as (_ & _ & _ & Ht). exact Ht.
  - intros dir name f st0.
    destruct (processEntry_file formatFileSize E directory opts dir name f st0)
      as (st1 & Hstep & Hl & _).
    exists st1. split; [exact Hstep|].
    unfold locals, settle in Hl.
    destruct (classify opts f); injection Hl as _ Hp Hs; auto.
  - intros dir name listing st0 Hres.
    rewrite processEntry_dir. cbn [walk_entry]. rewrite Hres.
    split; [reflexivity | intros rel; reflexivity].
  - intros dir name st0. split; [reflexivity | intros rel; reflexivity].
  - intros rel name entries Hres. rewrite walk_entry_dir, Hres. reflexivity.
Qed.

Lemma counters_partition_visited_files_witness :
  exists out st,
    processFiles_run Scenario.bytes Scenario.quiet Scenario.root_dir
      Scenario.one_megabyte Scenario.two_files [] = (Fulfilled out, st)
    /\ processedFiles st + skippedFiles st
       = List.length (visited Scenario.two_files).
Proof.
  eexists. eexists. split.
  - vm_compute. reflexivity.
  - eapply (counters_partition_visited_files Scenario.bytes Scenario.quiet
              Scenario.root_dir Scenario.one_megabyte Scenario.two_files []).
    vm_compute. reflexivity.
Defined.




(** ** The classifier on one file *)

Lemma exceeds_true (size : Z) (thr : Q) :
  exceeds size thr = true <-> (thr < inject_Z size)%Q.
Proof.
  unfold exceeds. rewrite negb_true_iff, <- not_true_iff_false, Qle_bool_iff.
  split; [apply Qnot_le_lt | apply Qlt_not_le].
Qed.

Lemma exceeds_false (size : Z) (thr : Q) :
  exceeds size thr = false <-> (inject_Z size <= thr)%Q.
Proof.
  unfold exceeds. now rewrite negb_false_iff, Qle_bool_iff.
Qed.

(** The locals after a file that is skipped, and after a file that is
    included. *)
Lemma processEntry_file_skipped (formatFileSize : Z -> string) (E : env)
  (directory : path) (opts : options) (dir : path) (name : string)
  (f : file) (st : state) :
  (forall size content, classify opts f <> Included size content) ->
  exists st',
    processEntry formatFileSize E directory opts dir name (File f) st
    = (Fulfilled tt, st')
    /\ output st' = output st
    /\ processedFiles st' = processedFiles st
    /\ skippedFiles st' = Datatypes.S (skippedFiles st).
Proof.
  intros Hskip.
  destruct (processEntry_file formatFileSize E directory opts dir name f st)
    as (st' & Hstep & Hl & _).
  exists st'. split; [exact Hstep|].
  unfold locals, settle in Hl.
  destruct (classify opts f) as [size content| | |];
    [now elim (Hskip size content)| | |]; injection Hl as Ho Hp Hs; auto.
Qed.

Lemma processEntry_file_included (formatFileSize : Z -> string) (E : env)
  (directory : path) (opts : options) (dir : path) (name : string)
  (f : file) (st : state) (size : Z) (content : string) :
  classify opts f = Included size content ->
  exists st',
    processEntry formatFileSize E directory opts dir name (File f) st
    = (Fulfilled tt, st')
    /\ output st'
       = (output st
          ++ record formatFileSize (relative directory (join dir name))
               size content)%string
    /\ processedFiles st' = Datatypes.S (processedFiles st)
    /\ skippedFiles st' = skippedFiles st.
Proof.
  intros Hc.
  destruct (processEntry_file formatFileSize E directory opts dir name f st)
    as (st' & Hstep & Hl & _).
  exists st'. split; [exact Hstep|].
  unfold locals, settle in Hl. rewrite Hc in Hl.
  injection Hl as Ho Hp Hs; auto.
Qed.

(** The whole state after a file when [includeAll] is set and both
    [fs.stat] and [fs.readFile] succeed. *)
Lemma processEntry_file_includeAll (formatFileSize : Z -> string) (E : env)
  (directory : path) (opts : options) (dir : path) (name : string)
  (f : file) (st : state) (size : Z) (content : string) :
  includeAll opts = true ->
  f_stat f = Fulfilled size ->
  f_content f = Fulfilled content ->
  processEntry formatFileSize E directory opts dir name (File f) st
  = (Fulfilled tt,
     mkState
       (output st
        ++ record formatFileSize (relative directory (join dir name))
             size content)
       (Datatypes.S (processedFiles st))
       (skippedFiles st)
       (effects st
        ++ [FsStat (join dir name); FsReadFile (join dir name)]
        ++ (if DEBUG E
            then [ConsoleLog ("Processed file: "
                              ++ relative directory (join dir name))]
            else []))).
Proof.
  intros Hall Hstat Hread.
  cbn [processEntry]. unfold processDirectory_try.
  rewrite Hall, Hstat, Hread. cbn [negb andb].
  destruct (DEBUG E);
    cbv [try_catch bind when emit output_append
      processedFiles_incr skippedFiles_incr modify await ret throw
      output processedFiles skippedFiles effects];
    unfold record, newline, delimiter;
    rewrite ?append_assoc, <- ?app_assoc; reflexivity.
Qed.

(** C3. With [includeAll] unset, a file whose size is strictly greater than
    [thresholdBytes] is skipped: [skippedFiles] grows by one and [output]
    is left as it is.  With [includeAll] set, a file whose size is known is
    included whatever its size is, provided the read succeeds.  A run on a
    root that holds one file above the threshold, with [includeAll] unset,
    returns the empty text with [skippedFiles] at 1 and [processedFiles]
    at 0. *)
Theorem size_filter :
  forall (formatFileSize : Z -> string) (E : env) (directory : path)
         (opts : options),
    (forall dir name f size st,
        includeAll opts = false ->
        f_stat f = Fulfilled size ->
        (thresholdBytes opts < inject_Z size)%Q ->
        exists st',
          processEntry formatFileSize E directory opts dir name (File f) st
          = (Fulfilled tt, st')
          /\ output st' = output st
          /\ processedFiles st' = processedFiles st
          /\ skippedFiles st' = Datatypes.S (skippedFiles st))
    /\ (forall dir name f size content st,
          includeAll opts = true ->
          f_stat f = Fulfilled size ->
          f_content f = Fulfilled content ->
          exists st',
            processEntry formatFileSize E directory opts dir name (File f) st
            = (Fulfilled tt, st')
            /\ output st'
               = (output st
                  ++ record formatFileSize (relative directory (join dir name))
                       size content)%string
            /\ processedFiles st' = Datatypes.S (processedFiles st)
            /\ skippedFiles st' = skippedFiles st)
    /\ (forall name f size world,
          includeAll opts = false ->
          f_stat f = Fulfilled size ->
          (thresholdBytes opts < inject_Z size)%Q ->
          exists st,
            processFiles_run formatFileSize E directory opts
              (Fulfilled [(name, File f)]) world = (Fulfilled "", st)
            /\ skippedFiles st = 1
            /\ processedFiles st = 0).
Proof.
  intros formatFileSize E directory opts.
  assert (Hlarge : forall f size,
    includeAll opts = false -> f_stat f = Fulfilled size ->
    (thresholdBytes opts < inject_Z size)%Q ->
    classify opts f = SkippedTooLarge).
  { intros f size Hall Hstat Hgt. apply exceeds_true in Hgt.
    unfold classify. now rewrite Hstat, Hall, Hgt. }
  split; [|split].
  - intros dir name f size st Hall Hstat Hgt.
    apply processEntry_file_skipped.
    intros sz c. now rewrite (Hlarge f size).
  - intros dir name f size content st Hall Hstat Hread.
    eexists. split.
    + apply processEntry_file_includeAll; eassumption.
    + cbn [output processedFiles skippedFiles]. auto.
  - intros name f size world Hall Hstat Hgt.
    pose proof (processFiles_run_follows formatFileSize E directory opts
                  (Fulfilled [(name, File f)]) world) as H.
    cbn [fatal failure failure_entry visited walk walk_entry app] in H.
    destruct H as (st & Hrun & (Ho & Hp & Hs & _) & _).
    cbn [filter] in Ho, Hp, Hs. unfold kept in Ho, Hp, Hs.
    cbn [snd] in Ho, Hp, Hs. rewrite (Hlarge f size) in Ho, Hp, Hs by assumption.
    cbn in Ho, Hp, Hs.
    exists st. rewrite Ho in Hrun. repeat split; assumption.
Qed.

Lemma size_filter_witness :
  (exists st',
     processEntry Scenario.bytes Scenario.quiet Scenario.root_dir
       (mkOptions Scenario.tenth false) Scenario.root_dir "big.bin"
       (Scenario.text 2097152 "0123") (initial []) = (Fulfilled tt, st')
     /\ output st' = "" /\ processedFiles st' = 0 /\ skippedFiles st' = 1)
  /\ (exists st',
        processEntry Scenario.bytes Scenario.quiet Scenario.root_dir
          (mkOptions Scenario.tenth true) Scenario.root_dir "big.bin"
          (Scenario.text 2097152 "0123") (initial []) = (Fulfilled tt, st')
        /\ output st'
           = record Scenario.bytes "big.bin" 2097152 "0123"
        /\ processedFiles st' = 1 /\ skippedFiles st' = 0)
  /\ (exists st,
        processFiles_run Scenario.bytes Scenario.quiet Scenario.root_dir
          (mkOptions Scenario.tenth false) Scenario.big_bin []
        = (Fulfilled "", st)
        /\ skippedFiles st = 1 /\ processedFiles st = 0).
Proof.
  pose proof (size_filter Scenario.bytes Scenario.quiet Scenario.root_dir
                (mkOptions Scenario.tenth false)) as (Hskip & _ & Hrun).
  pose proof (size_filter Scenario.bytes Scenario.quiet Scenario.root_dir
                (mkOptions Scenario.tenth true)) as (_ & Hall & _).
  split; [|split].
  - apply (Hskip Scenario.root_dir "big.bin"
             (mkFile (Fulfilled 2097152%Z) (Fulfilled false) (Fulfilled "0123"))
             2097152%Z (initial []) eq_refl eq_refl).
    reflexivity.
  - apply (Hall Scenario.root_dir "big.bin"
             (mkFile (Fulfilled 2097152%Z) (Fulfilled false) (Fulfilled "0123"))
             2097152%Z "0123" (initial []) eq_refl eq_refl eq_refl).
  - apply (Hrun "big.bin"
             (mkFile (Fulfilled 2097152%Z) (Fulfilled false) (Fulfilled "0123"))
             2097152%Z [] eq_refl eq_refl).
    reflexivity.
Defined.



(** ** The loop around one entry *)

Lemma processEntries_continue (formatFileSize : Z -> string) (E : env)
  (directory : path) (opts : options) (dir : path) (name : string) (n : node)
  (rest : list dirent) (st st' : state) :
  processEntry formatFileSize E directory opts dir name n st
  = (Fulfilled tt, st') ->
  processEntries formatFileSize E directory opts dir ((name, n) :: rest) st
  = processEntries formatFileSize E directory opts dir rest st'.
Proof.
  intros Hstep. cbn [processEntries]. unfold bind. now rewrite Hstep.
Qed.

Lemma processEntries_abort (formatFileSize : Z -> string) (E : env)
  (directory : path) (opts : options) (dir : path) (name : string) (n : node)
  (rest : list dirent) (st st' : state) (e : error) :
  processEntry formatFileSize E directory opts dir name n st
  = (Rejected e, st') ->
  processEntries formatFileSize E directory opts dir ((name, n) :: rest) st
  = (Rejected e, st').
Proof.
  intros Hstep. cbn [processEntries]. unfold bind. now rewrite Hstep.
Qed.

Lemma not_reserved_false (name : string) :
  not_reserved name = false <-> name = "node_modules" \/ name = ".git".
Proof.
  unfold not_reserved.
  rewrite andb_false_iff, !negb_false_iff, !String.eqb_eq. reflexivity.
Qed.

(** Emptying the reserved directories changes nothing to what the loop
    does. *)
Lemma processEntry_prune (formatFileSize : Z -> string) (E : env)
  (directory : path) (opts : options) (n : node) :
  forall (dir : path) (name : string) (st : state),
    processEntry formatFileSize E directory opts dir name
      (prune_entry name n) st
    = processEntry formatFileSize E directory opts dir name n st.
Proof.
  induction n as [f | | e | es IH] using node_induction; intros dir name st;
    try reflexivity.
  - cbn [prune_entry]. destruct (not_reserved name) eqn:Hres; [reflexivity|].
    now rewrite !processEntry_dir, Hres.
  - rewrite prune_entry_dir. destruct (not_reserved name) eqn:Hres.
    2:{ now rewrite !processEntry_dir, Hres. }
    rewrite !processEntry_dir, Hres. unfold processDirectory, bind.
    destruct (emit (FsReaddir (join dir name)) st) as [[[]|e] st0];
      [|reflexivity].
    cbn [await ret]. generalize st0. clear st st0.
    induction IH as [|[nm c] rest Hc _ IHrest]; intros st0; [reflexivity|].
    cbn [prune processEntries snd] in *. unfold bind. rewrite Hc.
    destruct (processEntry formatFileSize E directory opts (join dir name)
                nm c st0) as [[[]|e] st1]; [apply IHrest | reflexivity].
Qed.

Lemma processEntries_prune (formatFileSize : Z -> string) (E : env)
  (directory : path) (opts : options) (dir : path) (es : list dirent) :
  forall st,
    processEntries formatFileSize E directory opts dir (prune es) st
    = processEntries formatFileSize E directory opts dir es st.
Proof.
  induction es as [|[name n] rest IH]; intros st; [reflexivity|].
  cbn [prune processEntries]. unfold bind. rewrite processEntry_prune.
  destruct (processEntry formatFileSize E directory opts dir name n st)
    as [[[]|e] st1]; [apply IH | reflexivity].
Qed.

(** C5. A directory entry named [node_modules] or [.git] is never entered,
    whatever the options are: the body of the loop leaves the state as it
    is (no counter moves and no call to the file system is made for the
    directory or below it), the walk visits no file below it, and the run
    on a tree is the run on the tree with every such directory emptied, at
    any depth. *)
Theorem reserved_directories_never_entered :
  forall (formatFileSize : Z -> string) (E : env) (directory : path)
         (opts : options),
    (forall dir name listing st,
        name = "node_modules" \/ name = ".git" ->
        processEntry formatFileSize E directory opts dir name (Dir listing) st
        = (Fulfilled tt, st)
        /\ (forall rel, walk_entry rel name (Dir listing) = [])
        /\ failure_entry name (Dir listing) = None)
    /\ (forall root world,
          processFiles_run formatFileSize E directory opts
            (prune_root root) world
          = processFiles_run formatFileSize E directory opts root world).
Proof.
  intros formatFileSize E directory opts. split.
  - intros dir name listing st Hname. apply not_reserved_false in Hname.
    rewrite processEntry_dir. cbn [walk_entry failure_entry]. rewrite Hname.
    repeat split.
  - intros [es|e] world; [|reflexivity].
    unfold processFiles_run, processFiles_body, processDirectory.
    cbn [prune_root]. unfold try_catch, bind.
    destruct (when (negb (NODE_ENV_is_test E))
                (emit (OraStart "Processing files...")) (initial world))
      as [[[]|e] st0]; [|reflexivity].
    destruct (emit (FsReaddir directory) st0) as [[[]|e] st1]; [|reflexivity].
    cbn [await ret]. now rewrite processEntries_prune.
Qed.

Lemma reserved_directories_never_entered_witness :
  processEntry Scenario.bytes Scenario.quiet Scenario.root_dir
    (mkOptions (inject_Z 1) true) Scenario.root_dir ".git"
    (Dir (Fulfilled [("config", Scenario.text 7 "[core]")])) (initial [])
  = (Fulfilled tt, initial [])
  /\ processEntry Scenario.bytes Scenario.quiet Scenario.root_dir
       (mkOptions (inject_Z 1) true) Scenario.root_dir "node_modules"
       (Dir (Rejected "EACCES")) (initial [])
     = (Fulfilled tt, initial []).
Proof.
  split.
  - apply (proj1 (reserved_directories_never_entered Scenario.bytes
                    Scenario.quiet Scenario.root_dir
                    (mkOptions (inject_Z 1) true))
             Scenario.root_dir ".git"
             (Fulfilled [("config", Scenario.text 7 "[core]")]) (initial [])).
    right. reflexivity.
  - apply (proj1 (reserved_directories_never_entered Scenario.bytes
                    Scenario.quiet Scenario.root_dir
                    (mkOptions (inject_Z 1) true))
             Scenario.root_dir "node_modules" (Rejected "EACCES") (initial [])).
    left. reflexivity.
Defined.

(** C6. A file whose [fs.stat] or whose read rejects is skipped:
    [skippedFiles] grows by one, nothing is appended, no exception leaves
    the body of the loop and the loop goes on with the next entry.  A
    directory whose enumeration rejects makes the loop, [processDirectory]
    and [processFiles] reject with the same error: the caller gets the
    error and no text.  A run is fatal exactly when the walk meets such a
    directory. *)
Theorem failures_skip_or_abort :
  forall (formatFileSize : Z -> string) (E : env) (directory : path)
         (opts : options),
    (forall dir name f rest st,
        (exists e, f_stat f = Rejected e)
        \/ (exists e, f_content f = Rejected e) ->
        exists st',
          processEntry formatFileSize E directory opts dir name (File f) st
          = (Fulfilled tt, st')
          /\ output st' = output st
          /\ processedFiles st' = processedFiles st
          /\ skippedFiles st' = Datatypes.S (skippedFiles st)
          /\ processEntries formatFileSize E directory opts dir
               ((name, File f) :: rest) st
             = processEntries formatFileSize E directory opts dir rest st')
    /\ (forall dir name e rest st,
          not_reserved name = true ->
          exists st',
            processEntries formatFileSize E directory opts dir
              ((name, Dir (Rejected e)) :: rest) st
            = (Rejected e, st'))
    /\ (forall dir e st,
          exists st',
            processDirectory formatFileSize E directory opts dir (Rejected e) st
            = (Rejected e, st'))
    /\ (forall root world e,
          fatal root = Some e ->
          exists trace,
            processFiles formatFileSize E directory opts root world
            = (Rejected e, trace))
    /\ (forall root world,
          fatal root = None ->
          exists out trace,
            processFiles formatFileSize E directory opts root world
            = (Fulfilled out, trace)).
Proof.
  intros formatFileSize E directory opts.
  split; [|split; [|split; [|split]]].
  - intros dir name f rest st Herr.
    destruct (processEntry_file_skipped formatFileSize E directory opts
                dir name f st) as (st' & Hstep & Ho & Hp & Hs).
    { intros size content. unfold classify.
      destruct Herr as [[e He]|[e He]]; rewrite He; [discriminate|].
      destruct (f_stat f); [|discriminate].
      destruct (negb (includeAll opts) && exceeds a (thresholdBytes opts));
        [discriminate|].
      destruct (if includeAll opts then Fulfilled false else f_isBinary f)
        as [[|]|]; discriminate. }
    exists st'. repeat split; try assumption.
    now apply processEntries_continue.
  - intros dir name e rest st Hres.
    eexists. apply processEntries_abort.
    rewrite processEntry_dir, Hres. reflexivity.
  - intros dir e st. apply processDirectory_unreadable.
  - intros root world e Hfatal.
    pose proof (processFiles_run_follows formatFileSize E directory opts
                  root world) as H.
    rewrite Hfatal in H. destruct H as (st & H).
    exists (effects st). unfold processFiles. now rewrite H.
  - intros root world Hfatal.
    pose proof (processFiles_run_follows formatFileSize E directory opts
                  root world) as H.
    rewrite Hfatal in H. destruct H as (st & H & _).
    exists (output st), (effects st). unfold processFiles. now rewrite H.
Qed.

Lemma failures_skip_or_abort_witness :
  (exists st',
     processEntry Scenario.bytes Scenario.quiet Scenario.root_dir
       Scenario.one_megabyte Scenario.root_dir "gone.txt"
       (File (mkFile (Rejected "ENOENT") (Fulfilled false) (Fulfilled "x")))
       (initial [])
     = (Fulfilled tt, st')
     /\ output st' = "" /\ processedFiles st' = 0 /\ skippedFiles st' = 1
     /\ processEntries Scenario.bytes Scenario.quiet Scenario.root_dir
          Scenario.one_megabyte Scenario.root_dir
          [("gone.txt",
            File (mkFile (Rejected "ENOENT") (Fulfilled false) (Fulfilled "x")));
           ("a.txt", Scenario.text 5 "hello")] (initial [])
        = processEntries Scenario.bytes Scenario.quiet Scenario.root_dir
            Scenario.one_megabyte Scenario.root_dir
            [("a.txt", Scenario.text 5 "hello")] st')
  /\ (exists trace,
        processFiles Scenario.bytes Scenario.quiet Scenario.root_dir
          Scenario.one_megabyte
          (Fulfilled [("a.txt", Scenario.text 5 "hello");
                      ("locked", Dir (Rejected "EACCES"))]) []
        = (Rejected "EACCES", trace))
  /\ (exists out trace,
        processFiles Scenario.bytes Scenario.quiet Scenario.root_dir
          Scenario.one_megabyte
          (Fulfilled [("secret.txt",
                       File (mkFile (Fulfilled 3%Z) (Fulfilled false)
                                    (Rejected "EACCES")))]) []
        = (Fulfilled out, trace)).
Proof.
  pose proof (failures_skip_or_abort Scenario.bytes Scenario.quiet
                Scenario.root_dir Scenario.one_megabyte)
    as (Hfile & _ & _ & Hfatal & Hfine).
  split; [|split].
  - apply (Hfile Scenario.root_dir "gone.txt"
             (mkFile (Rejected "ENOENT") (Fulfilled false) (Fulfilled "x"))
             [("a.txt", Scenario.text 5 "hello")] (initial [])).
    left. exists "ENOENT". reflexivity.
  - apply Hfatal. reflexivity.
  - apply Hfine. reflexivity.
Defined.

(** C9. The reserved names exclude directories only.  A regular file named
    [node_modules] or [.git] is a candidate of the walk and goes through
    the classifier as any other file does; when it passes the size and the
    binary checks and its read succeeds, its record is appended and
    [processedFiles] grows by one. *)
Theorem reserved_names_exclude_directories_only :
  forall (formatFileSize : Z -> string) (E : env) (directory : path)
         (opts : options) (dir : path) (name : string) (f : file)
         (st : state),
    name = "node_modules" \/ name = ".git" ->
    (forall rel, walk_entry rel name (File f) = [(rel ++ [name], f)])
    /\ (exists st',
          processEntry formatFileSize E directory opts dir name (File f) st
          = (Fulfilled tt, st')
          /\ locals st'
             = settle formatFileSize (relative directory (join dir name))
                 (classify opts f) st)
    /\ (forall size content,
          f_stat f = Fulfilled size ->
          includeAll opts = true
          \/ ((inject_Z size <= thresholdBytes opts)%Q
              /\ f_isBinary f = Fulfilled false) ->
          f_content f = Fulfilled content ->
          exists st',
            processEntry formatFileSize E directory opts dir name (File f) st
            = (Fulfilled tt, st')
            /\ output st'
               = (output st
                  ++ record formatFileSize
                       (relative directory (join dir name)) size content)%string
            /\ processedFiles st' = Datatypes.S (processedFiles st)
            /\ skippedFiles st' = skippedFiles st).
Proof.
  intros formatFileSize E directory opts dir name f st _.
  split; [|split].
  - intros rel. reflexivity.
  - destruct (processEntry_file formatFileSize E directory opts dir name f st)
      as (st' & Hstep & Hl & _).
    now exists st'.
  - intros size content Hstat Hpass Hread.
    apply processEntry_file_included.
    unfold classify. rewrite Hstat, Hread.
    destruct Hpass as [Hall | [Hle Hbin]].
    + now rewrite Hall.
    + apply exceeds_false in Hle. rewrite Hle, Hbin, andb_false_r.
      now destruct (includeAll opts).
Qed.

Lemma reserved_names_exclude_directories_only_witness :
  exists st',
    processEntry Scenario.bytes Scenario.quiet ["tmp"; "repo"]
      Scenario.one_megabyte ["tmp"; "repo"; "docs"] ".git"
      (Scenario.text 5 "hello") (initial [])
    = (Fulfilled tt, st')
    /\ output st' = record Scenario.bytes "docs/.git" 5 "hello"
    /\ processedFiles st' = 1
    /\ skippedFiles st' = 0.
Proof.
  apply (proj2 (proj2 (@reserved_names_exclude_directories_only
                         Scenario.bytes Scenario.quiet ["tmp"; "repo"]
                         Scenario.one_megabyte ["tmp"; "repo"; "docs"] ".git"
                         (mkFile (Fulfilled 5%Z) (Fulfilled false)
                                 (Fulfilled "hello"))
                         (initial []) (or_intror eq_refl)))
           5%Z "hello" eq_refl).
  - right. split; [vm_compute; discriminate | reflexivity].
  - reflexivity.
Defined.

(** C10. With [includeAll] unset, a file that passes the size check and on
    which the detector itself rejects is skipped: [skippedFiles] grows by
    one, nothing is appended, the body of the loop returns and the loop
    goes on with the next entry. *)
Theorem detector_failure_is_a_skip :
  forall (formatFileSize : Z -> string) (E : env) (directory : path)
         (opts : options) (dir : path) (name : string) (f : file)
         (size : Z) (e : error) (rest : list dirent) (st : state),
    includeAll opts = false ->
    f_stat f = Fulfilled size ->
    (inject_Z size <= thresholdBytes opts)%Q ->
    f_isBinary f = Rejected e ->
    exists st',
      processEntry formatFileSize E directory opts dir name (File f) st
      = (Fulfilled tt, st')
      /\ output st' = output st
      /\ processedFiles st' = processedFiles st
      /\ skippedFiles st' = Datatypes.S (skippedFiles st)
      /\ processEntries formatFileSize E directory opts dir
           ((name, File f) :: rest) st
         = processEntries formatFileSize E directory opts dir rest st'.
Proof.
  intros formatFileSize E directory opts dir name f size e rest st
    Hall Hstat Hle Hbin.
  destruct (processEntry_file_skipped formatFileSize E directory opts
              dir name f st) as (st' & Hstep & Ho & Hp & Hs).
  { intros sz c. apply exceeds_false in Hle.
    unfold classify. now rewrite Hstat, Hall, Hle, Hbin. }
  exists st'. repeat split; try assumption.
  now apply processEntries_continue.
Qed.

Lemma detector_failure_is_a_skip_witness :
  exists st',
    processEntry Scenario.bytes Scenario.quiet Scenario.root_dir
      Scenario.one_megabyte Scenario.root_dir "odd.dat"
      (File (mkFile (Fulfilled 9%Z) (Rejected "EISDIR") (Fulfilled "x")))
      (initial [])
    = (Fulfilled tt, st')
    /\ output st' = ""
    /\ processedFiles st' = 0
    /\ skippedFiles st' = 1
    /\ processEntries Scenario.bytes Scenario.quiet Scenario.root_dir
         Scenario.one_megabyte Scenario.root_dir
         [("odd.dat",
           File (mkFile (Fulfilled 9%Z) (Rejected "EISDIR") (Fulfilled "x")));
          ("a.txt", Scenario.text 5 "hello")] (initial [])
       = processEntries Scenario.bytes Scenario.quiet Scenario.root_dir
           Scenario.one_megabyte Scenario.root_dir
           [("a.txt", Scenario.text 5 "hello")] st'.
Proof.
  apply (@detector_failure_is_a_skip Scenario.bytes Scenario.quiet
           Scenario.root_dir Scenario.one_megabyte Scenario.root_dir "odd.dat"
           (mkFile (Fulfilled 9%Z) (Rejected "EISDIR") (Fulfilled "x"))
           9%Z "EISDIR" [("a.txt", Scenario.text 5 "hello")] (initial [])
           eq_refl eq_refl).
  - vm_compute. discriminate.
  - reflexivity.
Defined.

(** ** Where the records are in the content *)

Lemma concat_nil_cons (x : string) (l : list string) :
  String.concat "" (x :: l) = (x ++ String.concat "" l)%string.
Proof.
  destruct l; simpl; [now rewrite append_nil_r | reflexivity].
Qed.

Lemma walk_in (rel : list string) (name : string) (n : node)
  (es : list dirent) (c : candidate) :
  In (name, n) es -> In c (walk_entry rel name n) -> In c (walk rel es).
Proof.
  induction es as [|[nm m] es IH]; intros Hin Hc; [contradiction|].
  cbn [walk]. apply in_or_app. destruct Hin as [Heq | Hin].
  - injection Heq as -> ->. now left.
  - right. now apply IH.
Qed.

Lemma located_nonempty (es : list dirent) (segs : list string) (f : file) :
  located es segs f -> segs <> [].
Proof. intros H. destruct H; discriminate. Qed.

Lemma located_walk (es : list dirent) (segs : list string) (f : file) :
  located es segs f ->
  forall rel,
    Forall (fun d => not_reserved d = true) (ancestors segs) ->
    In (rel ++ segs, f) (walk rel es).
Proof.
  induction 1 as [es name f Hin | es name sub segs f Hin Hloc IH];
    intros rel Hanc.
  - eapply walk_in; [exact Hin|]. now left.
  - pose proof (located_nonempty Hloc) as Hne.
    unfold ancestors in Hanc. cbn [removelast] in Hanc.
    destruct segs as [|s segs]; [contradiction|].
    inversion Hanc as [|? ? Hname Hrest]; subst.
    eapply walk_in; [exact Hin|].
    rewrite walk_entry_dir, Hname.
    change (rel ++ name :: s :: segs) with (rel ++ [name] ++ s :: segs).
    rewrite app_assoc. now apply IH.
Qed.

Lemma classify_included (opts : options) (f : file) (size : Z)
  (content : string) :
  f_stat f = Fulfilled size ->
  includeAll opts = true
  \/ ((inject_Z size <= thresholdBytes opts)%Q
      /\ f_isBinary f = Fulfilled false) ->
  f_content f = Fulfilled content ->
  classify opts f = Included size content.
Proof.
  intros Hstat Hpass Hread. unfold classify. rewrite Hstat, Hread.
  destruct Hpass as [Hall | [Hle Hbin]].
  - now rewrite Hall.
  - apply exceeds_false in Hle. rewrite Hle, Hbin, andb_false_r.
    now destruct (includeAll opts).
Qed.

Lemma record_in_content (formatFileSize : Z -> string) (opts : options)
  (cands : list candidate) (c : candidate) :
  In c cands -> kept opts c = true ->
  exists before after,
    String.concat ""
      (map (record_of formatFileSize opts) (filter (kept opts) cands))
    = (before ++ record_of formatFileSize opts c ++ after)%string.
Proof.
  intros Hin Hkept.
  assert (Hf : In c (filter (kept opts) cands)) by now apply filter_In.
  apply in_split in Hf. destruct Hf as (l1 & l2 & ->).
  exists (String.concat "" (map (record_of formatFileSize opts) l1)),
         (String.concat "" (map (record_of formatFileSize opts) l2)).
  now rewrite map_app, concat_nil_app, map_cons, concat_nil_cons.
Qed.

Lemma lines_nonempty (s : string) : lines s <> [].
Proof.
  induction s as [|c s IH]; [discriminate|]. cbn [lines].
  destruct (c =? "010")%char; [discriminate|].
  destruct (lines s); discriminate.
Qed.

Lemma lines_app_newline (a b : string) :
  lines (a ++ newline ++ b) = lines a ++ lines b.
Proof.
  induction a as [|c a IH]; [reflexivity|].
  cbn [append lines]. rewrite IH.
  destruct (c =? "010")%char; [reflexivity|].
  pose proof (lines_nonempty a) as Hne.
  destruct (lines a); [contradiction | reflexivity].
Qed.

Lemma lines_whole (s : string) : has_line_feed s = false -> lines s = [s].
Proof.
  induction s as [|c s IH]; [reflexivity|].
  cbn [has_line_feed lines]. intros H. apply orb_false_iff in H.
  destruct H as (Hc & Hs). now rewrite Hc, (IH Hs).
Qed.

Lemma has_line_feed_app (a b : string) :
  has_line_feed (a ++ b) = has_line_feed a || has_line_feed b.
Proof.
  induction a as [|c a IH]; [reflexivity|].
  cbn [append has_line_feed]. now rewrite IH, orb_assoc.
Qed.

Lemma has_line_feed_concat (segs : list string) :
  Forall (fun name => has_line_feed name = false) segs ->
  has_line_feed (String.concat "/" segs) = false.
Proof.
  induction 1 as [|name segs Hname _ IH]; [reflexivity|].
  destruct segs as [|name' segs]; [exact Hname|].
  change (String.concat "/" (name :: name' :: segs))
    with (name ++ "/" ++ String.concat "/" (name' :: segs))%string.
  now rewrite !has_line_feed_app, Hname, IH.
Qed.

(** The lines of a text that holds a record: those of the text before it,
    the delimiter line, the path line, the size line, the delimiter line, a
    blank line, the lines of the content and those of the text after it. *)
Lemma lines_record (formatFileSize : Z -> string) (before after : string)
  (relativePath : string) (size : Z) (content : string) :
  has_line_feed relativePath = false ->
  lines (before ++ record formatFileSize relativePath size content ++ after)
  = lines before
    ++ [delimiter; ("File: " ++ relativePath)%string]
    ++ lines ("Size: " ++ formatFileSize size)
    ++ [delimiter; EmptyString]
    ++ lines content ++ lines after.
Proof.
  intros Hpath. unfold record. rewrite !append_assoc.
  rewrite lines_app_newline.
  rewrite <- (append_assoc "File: " relativePath).
  rewrite <- (append_assoc "Size: " (formatFileSize size)).
  rewrite !lines_app_newline.
  change (newline ++ content ++ newline ++ after)%string
    with ("" ++ newline ++ content ++ newline ++ after)%string.
  rewrite !lines_app_newline.
  rewrite (@lines_whole delimiter) by reflexivity.
  rewrite (@lines_whole ("File: " ++ relativePath)) by exact Hpath.
  reflexivity.
Qed.

(** C7, as the claim states it, fails for a name that holds a line feed.
    The file [two_line_name] of the root is included, its relative path is
    its name, and no line of the returned content holds that path: the
    record spreads it over two lines, the second of which reads as the path
    line of a file [b]. *)
Lemma path_with_line_feed_has_no_line :
  exists out st,
    processFiles_run Scenario.bytes Scenario.quiet Scenario.root_dir
      Scenario.one_megabyte Scenario.forged [] = (Fulfilled out, st)
    /\ processedFiles st = 1
    /\ relative Scenario.root_dir
         (join Scenario.root_dir Scenario.two_line_name)
       = Scenario.two_line_name
    /\ forallb (fun l => negb (includes l Scenario.two_line_name)) (lines out)
       = true
    /\ In "File: b" (lines out).
Proof.
  eexists. eexists. split; [vm_compute; reflexivity|].
  split; [reflexivity|]. split; [reflexivity|].
  split; [vm_compute; reflexivity|].
  vm_compute. tauto.
Qed.

(** C7, amended.  In a run that returns, the content is the concatenation
    of the records of the included files and every record has the one
    format of [record].  For an included file none of whose names from the
    root down holds a line feed, the content holds its record, in which the
    line after the first delimiter line is [File: ] followed by those names
    joined by [/]: its path relative to the root, which [path.relative]
    computes from [directory] at every depth. *)
Theorem included_files_have_path_lines :
  forall (formatFileSize : Z -> string) (E : env) (directory : path)
         (opts : options) (entries : list dirent) (world : list event)
         (out : string) (st : state),
    processFiles_run formatFileSize E directory opts (Fulfilled entries) world
    = (Fulfilled out, st) ->
    out = String.concat "" (records formatFileSize opts (Fulfilled entries))
    /\ Forall (fun r => exists relativePath size content,
                   r = record formatFileSize relativePath size content)
         (records formatFileSize opts (Fulfilled entries))
    /\ (forall segs f size content,
          located entries segs f ->
          Forall (fun d => not_reserved d = true) (ancestors segs) ->
          f_stat f = Fulfilled size ->
          includeAll opts = true
          \/ ((inject_Z size <= thresholdBytes opts)%Q
              /\ f_isBinary f = Fulfilled false) ->
          f_content f = Fulfilled content ->
          Forall (fun name => has_line_feed name = false) segs ->
          relative directory (directory ++ segs) = String.concat "/" segs
          /\ exists before after,
               out = (before
                      ++ (newline ++ delimiter ++ newline
                          ++ "File: " ++ String.concat "/" segs ++ newline
                          ++ "Size: " ++ formatFileSize size ++ newline
                          ++ delimiter ++ newline
                          ++ newline
                          ++ content ++ newline)
                      ++ after)%string
               /\ lines out
                  = lines before
                    ++ [delimiter; ("File: " ++ String.concat "/" segs)%string]
                    ++ lines ("Size: " ++ formatFileSize size)
                    ++ [delimiter; EmptyString]
                    ++ lines content ++ lines after).
Proof.
  intros formatFileSize E directory opts entries world out st Hrun.
  pose proof (processFiles_run_follows formatFileSize E directory opts
                (Fulfilled entries) world) as H.
  destruct (fatal (Fulfilled entries)) as [e|].
  { destruct H as (st' & H). rewrite H in Hrun. discriminate. }
  destruct H as (st' & H & (Ho & _) & _). rewrite H in Hrun.
  injection Hrun as <- <-. cbn [initial output append] in Ho.
  split; [exact Ho | split].
  - unfold records. apply Forall_forall. intros r Hr.
    apply in_map_iff in Hr. destruct Hr as ([segs f] & <- & Hc).
    apply filter_In in Hc. destruct Hc as (_ & Hkept).
    unfold kept, record_of in *. cbn [fst snd] in *.
    destruct (classify opts f) as [size content| | |]; try discriminate.
    now exists (String.concat "/" segs), size, content.
  - intros segs f size content Hloc Hanc Hstat Hpass Hread Hfeed.
    split; [apply relative_below|].
    pose proof (@classify_included opts f size content Hstat Hpass Hread) as Hc.
    pose proof (@located_walk entries segs f Hloc [] Hanc) as Hin. cbn [app] in Hin.
    destruct (@record_in_content formatFileSize opts (walk [] entries)
                (segs, f) Hin) as (before & after & Hrec).
    { unfold kept. cbn [snd]. now rewrite Hc. }
    exists before, after. rewrite Ho. cbn [visited]. rewrite Hrec.
    unfold record_of. cbn [fst snd]. rewrite Hc.
    split; [reflexivity|].
    apply lines_record. now apply has_line_feed_concat.
Qed.

Lemma included_files_have_path_lines_witness :
  exists out st,
    processFiles_run Scenario.bytes Scenario.quiet Scenario.root_dir
      Scenario.one_megabyte Scenario.two_files [] = (Fulfilled out, st)
    /\ In "File: sub/b.txt" (lines out).
Proof.
  eexists. eexists. split; [vm_compute; reflexivity|].
  lazymatch goal with
  | |- In _ (lines ?o) =>
      destruct (included_files_have_path_lines Scenario.bytes
                  Scenario.quiet Scenario.root_dir Scenario.one_megabyte
                  [("a.txt", Scenario.text 5 "hello");
                   ("sub", Dir (Fulfilled [("b.txt", Scenario.text 5 "world")]))]
                  [] (out := o)
                  (st := snd (processFiles_run Scenario.bytes Scenario.quiet
                                Scenario.root_dir Scenario.one_megabyte
                                Scenario.two_files [])))
        as (_ & _ & Hrec)
  end.
  - vm_compute. reflexivity.
  - destruct (Hrec ["sub"; "b.txt"]
                (mkFile (Fulfilled 5%Z) (Fulfilled false) (Fulfilled "world"))
                5%Z "world") as (_ & before & after & _ & Hlines).
    + eapply located_below; [right; left; reflexivity|].
      apply located_here. left. reflexivity.
    + repeat constructor.
    + reflexivity.
    + right. split; [vm_compute; discriminate | reflexivity].
    + reflexivity.
    + repeat constructor.
    + rewrite Hlines. apply in_or_app. right. right. left. reflexivity.
Defined.

(** ** Two enumerations of one tree *)

Lemma Permutation_filter (A : Type) (p : A -> bool) (l l' : list A) :
  Permutation l l' -> Permutation (filter p l) (filter p l').
Proof.
  induction 1 as [| x l l' _ IH | x y l | l1 l2 l3 _ IH1 _ IH2]; cbn [filter].
  - constructor.
  - destruct (p x); [now constructor | exact IH].
  - destruct (p x), (p y); try apply Permutation_refl. apply perm_swap.
  - now transitivity (filter p l2).
Qed.

Lemma failure_cons_none (name : string) (n : node) (es : list dirent) :
  failure ((name, n) :: es) = None
  <-> failure_entry name n = None /\ failure es = None.
Proof.
  cbn [failure]. destruct (failure_entry name n) as [e|]; split.
  - discriminate.
  - intros [H _]. discriminate H.
  - intros H. now split.
  - intros [_ H]. exact H.
Qed.

Lemma same_entries_walk (es es' : list dirent) :
  same_entries es es' ->
  forall rel,
    Permutation (walk rel es) (walk rel es')
    /\ (failure es = None <-> failure es' = None).
Proof.
  intros Hsame.
  apply (same_entries_mut
           (fun n n' => forall rel name,
              Permutation (walk_entry rel name n) (walk_entry rel name n')
              /\ (failure_entry name n = None
                  <-> failure_entry name n' = None))
           (fun es es' => forall rel,
              Permutation (walk rel es) (walk rel es')
              /\ (failure es = None <-> failure es' = None)));
    try exact Hsame; clear es es' Hsame.
  - intros f rel name. split; [apply Permutation_refl | reflexivity].
  - intros rel name. split; [apply Permutation_refl | reflexivity].
  - intros e rel name. split; [apply Permutation_refl | reflexivity].
  - intros es es' _ IH rel name.
    rewrite !walk_entry_dir, !failure_entry_dir.
    destruct (not_reserved name); [apply IH|].
    split; [apply Permutation_refl | reflexivity].
  - intros rel. split; [apply Permutation_refl | reflexivity].
  - intros name n n' es es' _ IHn _ IHes rel.
    destruct (IHn rel name) as (Hp1 & Hf1). destruct (IHes rel) as (Hp2 & Hf2).
    split.
    + cbn [walk]. now apply Permutation_app.
    + rewrite !failure_cons_none. tauto.
  - intros [na a] [nb b] es es' _ IHes rel.
    destruct (IHes rel) as (Hp & Hf). split.
    + cbn [walk]. rewrite !app_assoc. apply Permutation_app; [|exact Hp].
      apply Permutation_app_comm.
    + rewrite !failure_cons_none. tauto.
  - intros es1 es2 es3 _ IH12 _ IH23 rel.
    destruct (IH12 rel) as (Hp1 & Hf1). destruct (IH23 rel) as (Hp2 & Hf2).
    split; [now transitivity (walk rel es2) | tauto].
Qed.

Lemma same_root_visited (root root' : settled (list dirent)) :
  same_root root root' ->
  Permutation (visited root) (visited root')
  /\ (fatal root = None <-> fatal root' = None).
Proof.
  intros [es es' Hsame | e]; cbn [visited fatal].
  - now apply same_entries_walk.
  - split; [apply Permutation_refl | reflexivity].
Qed.

Lemma same_node_refl (n : node) : same_node n n.
Proof.
  induction n as [f | | e | es IH] using node_induction; try constructor.
  induction IH as [|[nm c] rest Hc _ IHrest]; constructor; assumption.
Qed.

Lemma same_root_refl (root : settled (list dirent)) : same_root root root.
Proof.
  destruct root as [es|e]; constructor.
  induction es as [|[nm c] rest IH]; constructor;
    [apply same_node_refl | exact IH].
Qed.

(** C8. Two runs with the same options on two snapshots of one tree, which
    may enumerate the entries of any directory in different orders, in any
    environment and after any earlier effects: when the first returns, the
    second returns too, with the same values of [processedFiles] and
    [skippedFiles]; each content is the concatenation of the records of its
    run, and the records of the two runs are the same up to their order.
    When the two enumerations agree, the two contents are equal. *)
Theorem runs_agree_up_to_enumeration_order :
  forall (formatFileSize : Z -> string) (E1 E2 : env) (directory : path)
         (opts : options) (root1 root2 : settled (list dirent))
         (world1 world2 : list event) (out1 : string) (st1 : state),
    same_root root1 root2 ->
    processFiles_run formatFileSize E1 directory opts root1 world1
    = (Fulfilled out1, st1) ->
    exists out2 st2,
      processFiles_run formatFileSize E2 directory opts root2 world2
      = (Fulfilled out2, st2)
      /\ processedFiles st2 = processedFiles st1
      /\ skippedFiles st2 = skippedFiles st1
      /\ out1 = String.concat "" (records formatFileSize opts root1)
      /\ out2 = String.concat "" (records formatFileSize opts root2)
      /\ Permutation (records formatFileSize opts root1)
           (records formatFileSize opts root2)
      /\ (root1 = root2 -> out2 = out1).
Proof.
  intros formatFileSize E1 E2 directory opts root1 root2 world1 world2
    out1 st1 Hsame Hrun1.
  destruct (same_root_visited Hsame) as (Hperm & Hfatal).
  pose proof (processFiles_run_follows formatFileSize E1 directory opts
                root1 world1) as H1.
  pose proof (processFiles_run_follows formatFileSize E2 directory opts
                root2 world2) as H2.
  destruct (fatal root1) as [e|].
  { destruct H1 as (st' & H1). rewrite H1 in Hrun1. discriminate. }
  destruct H1 as (st' & H1 & (Ho1 & Hp1 & Hs1 & _) & _).
  rewrite H1 in Hrun1. injection Hrun1 as <- <-.
  rewrite (proj1 Hfatal eq_refl) in H2.
  destruct H2 as (st2 & H2 & (Ho2 & Hp2 & Hs2 & _) & _).
  cbn [initial output processedFiles skippedFiles append Nat.add] in *.
  exists (output st2), st2.
  assert (Hkept : Permutation (filter (kept opts) (visited root1))
                    (filter (kept opts) (visited root2)))
    by now apply Permutation_filter.
  assert (Hskip : Permutation
                    (filter (fun c => negb (kept opts c)) (visited root1))
                    (filter (fun c => negb (kept opts c)) (visited root2)))
    by now apply Permutation_filter.
  split; [exact H2|]. split; [|split; [|split; [|split; [|split]]]].
  - rewrite Hp1, Hp2. symmetry. now apply Permutation_length.
  - rewrite Hs1, Hs2. symmetry. now apply Permutation_length.
  - exact Ho1.
  - exact Ho2.
  - unfold records. now apply Permutation_map.
  - intros <-. now rewrite Ho1, Ho2.
Qed.

Lemma runs_agree_up_to_enumeration_order_witness :
  exists out1 st1 out2 st2,
    processFiles_run Scenario.bytes Scenario.quiet Scenario.root_dir
      Scenario.one_megabyte Scenario.two_files [] = (Fulfilled out1, st1)
    /\ processFiles_run Scenario.bytes (mkEnv false true) Scenario.root_dir
         Scenario.one_megabyte
         (Fulfilled [("sub", Dir (Fulfilled [("b.txt", Scenario.text 5 "world")]));
                     ("a.txt", Scenario.text 5 "hello")])
         [OraStart "Processing files..."]
       = (Fulfilled out2, st2)
    /\ processedFiles st2 = processedFiles st1
    /\ skippedFiles st2 = skippedFiles st1.
Proof.
  eexists. eexists.
  destruct (runs_agree_up_to_enumeration_order Scenario.bytes Scenario.quiet
              (mkEnv false true) Scenario.root_dir Scenario.one_megabyte
              (root1 := Scenario.two_files)
              (root2 := Fulfilled
                 [("sub", Dir (Fulfilled [("b.txt", Scenario.text 5 "world")]));
                  ("a.txt", Scenario.text 5 "hello")])
              [] [OraStart "Processing files..."]
              (out1 := fst (Scenario.two_files_run))
              (st1 := snd (Scenario.two_files_run))
              (same_root_entries
                 (same_swap ("a.txt", Scenario.text 5 "hello")
                    ("sub", Dir (Fulfilled [("b.txt", Scenario.text 5 "world")]))
                    same_nil)))
    as (out2 & st2 & Hrun2 & Hp & Hs & _).
  - vm_compute. reflexivity.
  - exists out2, st2. split; [vm_compute; reflexivity|]. split; [exact Hrun2|].
    split; [exact Hp | exact Hs].
Defined.

(** ** Strings of the command line *)

Lemma startsWith_app (p s : string) : startsWith (p ++ s) p = true.
Proof.
  induction p as [|c p IH]; simpl; [reflexivity|].
  now rewrite Ascii.eqb_refl, IH.
Qed.

Lemma startsWith_split (s p : string) :
  startsWith s p = true -> s = (p ++ drop (String.length p) s)%string.
Proof.
  revert s. induction p as [|c p IH]; intros s H; simpl in *.
  - reflexivity.
  - destruct s as [|d s]; [discriminate|].
    apply andb_true_iff in H. destruct H as [Hc Hp].
    apply Ascii.eqb_eq in Hc. subst d. simpl. f_equal. now apply IH.
Qed.

Lemma includes_app (a p s : string) : includes (a ++ p ++ s) p = true.
Proof.
  induction a as [|c a IH].
  - simpl. destruct (p ++ s)%string eqn:Heq; simpl.
    + destruct p; [reflexivity | discriminate].
    + rewrite <- Heq. now rewrite startsWith_app.
  - cbn [append includes]. rewrite IH. apply orb_true_r.
Qed.

Lemma strip_nonempty_cons (c : ascii) (s : string) :
  strip_trailing_slashes s <> EmptyString ->
  strip_trailing_slashes (String c s) = String c (strip_trailing_slashes s).
Proof.
  intros H. cbn [strip_trailing_slashes].
  destruct (strip_trailing_slashes s); [contradiction | reflexivity].
Qed.

Lemma strip_idempotent (s : string) :
  strip_trailing_slashes (strip_trailing_slashes s) = strip_trailing_slashes s.
Proof.
  induction s as [|c s IH]; [reflexivity|].
  cbn [strip_trailing_slashes].
  destruct (strip_trailing_slashes s) as [|d r] eqn:Hs.
  - destruct (c =? "/")%char eqn:Hc; [reflexivity|].
    cbn [strip_trailing_slashes]. now rewrite Hc.
  - rewrite strip_nonempty_cons; [now rewrite IH|].
    rewrite IH. discriminate.
Qed.

Lemma strip_app_slashes (s : string) (n : nat) :
  strip_trailing_slashes (s ++ repeat_string "/" n) = strip_trailing_slashes s.
Proof.
  assert (Hall : forall k, strip_trailing_slashes (repeat_string "/" k)
                           = EmptyString).
  { induction k as [|k IH]; [reflexivity|].
    cbn [repeat_string append strip_trailing_slashes]. rewrite IH. reflexivity. }
  induction s as [|c s IH]; cbn [append].
  - apply Hall.
  - cbn [strip_trailing_slashes]. now rewrite IH.
Qed.

Lemma strip_app (a b : string) :
  strip_trailing_slashes b <> EmptyString ->
  strip_trailing_slashes (a ++ b) = (a ++ strip_trailing_slashes b)%string.
Proof.
  intros Hb. induction a as [|c a IH]; [reflexivity|].
  cbn [append]. rewrite strip_nonempty_cons; [now rewrite IH|].
  rewrite IH. destruct a; cbn [append]; [exact Hb | discriminate].
Qed.

Lemma short_format_nonempty (s : string) :
  short_format s = true -> s <> EmptyString.
Proof. intros H ->. discriminate. Qed.

(** ** [normalizeGitHubUrl] *)

(** The three ways in which [normalizeGitHubUrl] returns. *)
Lemma normalizeGitHubUrl_cases (url : string) :
  let u := strip_trailing_slashes url in
  (normalizeGitHubUrl url = Fulfilled u
   /\ (startsWith u "git@github.com:" = true
       \/ startsWith u "https://github.com/" = true))
  \/ (normalizeGitHubUrl url = Fulfilled ("https://github.com/" ++ u)%string
      /\ short_format u = true)
  \/ (normalizeGitHubUrl url = Rejected ("Invalid GitHub URL: " ++ u)%string
      /\ startsWith u "git@github.com:" = false
      /\ startsWith u "https://github.com/" = false
      /\ short_format u = false).
Proof.
  intros u. unfold normalizeGitHubUrl. fold u.
  destruct (startsWith u "git@github.com:") eqn:Hgit; [left; auto|].
  destruct (startsWith u "https://github.com/") eqn:Hhttps; [left; auto|].
  destruct (short_format u) eqn:Hshort; [right; left; auto|].
  right. right. auto.
Qed.

(** X1. When [normalizeGitHubUrl] throws, the message is
    [Invalid GitHub URL: ] followed by the URL without its trailing
    slashes; the message of line 122 never leaves the function. *)
Theorem normalizeGitHubUrl_error_message :
  forall (url : string) (e : error),
    normalizeGitHubUrl url = Rejected e ->
    e = ("Invalid GitHub URL: " ++ strip_trailing_slashes url)%string
    /\ e <> "Invalid GitHub repository URL format".
Proof.
  intros url e H.
  destruct (normalizeGitHubUrl_cases url) as [[H1 _] | [[H1 _] | [H1 _]]];
    rewrite H1 in H; try discriminate.
  injection H as <-. split; [reflexivity|].
  cbn [append]. intros Heq. discriminate Heq.
Qed.

Lemma normalizeGitHubUrl_error_message_witness :
  "Invalid GitHub URL: https://gitlab.com/user/repo"
  = ("Invalid GitHub URL: "
     ++ strip_trailing_slashes "https://gitlab.com/user/repo//")%string
  /\ "Invalid GitHub URL: https://gitlab.com/user/repo"
     <> "Invalid GitHub repository URL format".
Proof.
  apply (@normalizeGitHubUrl_error_message "https://gitlab.com/user/repo//"
           "Invalid GitHub URL: https://gitlab.com/user/repo").
  vm_compute. reflexivity.
Defined.

(** X2. What [normalizeGitHubUrl] returns starts with [git@github.com:] or
    with [https://github.com/], does not end with a slash, and is the URL
    without its trailing slashes, with [https://github.com/] put before it
    in the short format. *)
Theorem normalizeGitHubUrl_result :
  forall (url normalized : string),
    normalizeGitHubUrl url = Fulfilled normalized ->
    (startsWith normalized "git@github.com:" = true
     \/ startsWith normalized "https://github.com/" = true)
    /\ strip_trailing_slashes normalized = normalized
    /\ (normalized = strip_trailing_slashes url
        \/ (short_format (strip_trailing_slashes url) = true
            /\ normalized
               = ("https://github.com/" ++ strip_trailing_slashes url)%string)).
Proof.
  intros url normalized H.
  pose proof (normalizeGitHubUrl_cases url) as Hcases.
  remember "https://github.com/" as host eqn:Hhost.
  destruct Hcases as [[H1 Hp] | [[H1 Hs] | [H1 _]]];
    rewrite H1 in H; try discriminate; injection H as <-.
  - split; [exact Hp|]. split; [apply strip_idempotent | now left].
  - split; [right; apply startsWith_app|]. split; [|now right].
    rewrite strip_app; rewrite strip_idempotent; [reflexivity|].
    now apply short_format_nonempty.
Qed.

Lemma normalizeGitHubUrl_result_witness :
  startsWith "https://github.com/octocat/Spoon-Knife" "https://github.com/"
  = true
  /\ strip_trailing_slashes "https://github.com/octocat/Spoon-Knife"
     = "https://github.com/octocat/Spoon-Knife".
Proof.
  destruct (@normalizeGitHubUrl_result "octocat/Spoon-Knife/"
              "https://github.com/octocat/Spoon-Knife")
    as (Hstart & Hstrip & _).
  - vm_compute. reflexivity.
  - split; [|exact Hstrip].
    destruct Hstart as [Hgit | Hhttps]; [discriminate Hgit | exact Hhttps].
Defined.

(** X3. [normalizeGitHubUrl] leaves what it returns as it is: applied to
    its own result it returns that result. *)
Theorem normalizeGitHubUrl_idempotent :
  forall (url normalized : string),
    normalizeGitHubUrl url = Fulfilled normalized ->
    normalizeGitHubUrl normalized = Fulfilled normalized.
Proof.
  intros url normalized H.
  pose proof (normalizeGitHubUrl_cases url) as Hcases.
  remember "https://github.com/" as host eqn:Hhost.
  destruct Hcases as [[H1 Hp] | [[H1 Hs] | [H1 _]]];
    rewrite H1 in H; try discriminate; injection H as <-.
  - subst host. unfold normalizeGitHubUrl. rewrite strip_idempotent.
    destruct Hp as [Hgit | Hhttps].
    + now rewrite Hgit.
    + rewrite Hhttps.
      now destruct (startsWith (strip_trailing_slashes url) "git@github.com:").
  - unfold normalizeGitHubUrl.
    rewrite strip_app; rewrite strip_idempotent;
      [|now apply short_format_nonempty].
    subst host. reflexivity.
Qed.

Lemma normalizeGitHubUrl_idempotent_witness :
  normalizeGitHubUrl "https://github.com/octocat/Spoon-Knife"
  = Fulfilled "https://github.com/octocat/Spoon-Knife".
Proof.
  apply (@normalizeGitHubUrl_idempotent "octocat/Spoon-Knife").
  vm_compute. reflexivity.
Defined.

(** X4. [normalizeGitHubUrl] does not see the slashes that end a URL. *)
Theorem normalizeGitHubUrl_ignores_trailing_slashes :
  forall (url : string) (n : nat),
    normalizeGitHubUrl (url ++ repeat_string "/" n) = normalizeGitHubUrl url.
Proof.
  intros url n. unfold normalizeGitHubUrl. now rewrite strip_app_slashes.
Qed.

(** ** The name of the repository *)

Lemma split_slash_nonempty (s : string) : split_slash s <> [].
Proof.
  destruct s as [|c s]; cbn [split_slash]; [discriminate|].
  destruct (c =? "/")%char; [discriminate|].
  destruct (split_slash s); discriminate.
Qed.

Lemma split_slash_whole (s : string) :
  includes s "/" = false -> split_slash s = [s].
Proof.
  induction s as [|c s IH]; intros H; [reflexivity|].
  cbn [includes startsWith] in H. apply orb_false_iff in H.
  destruct H as [Hc Hs]. rewrite andb_true_r, Ascii.eqb_sym in Hc.
  cbn [split_slash]. rewrite Hc, (IH Hs). reflexivity.
Qed.

Lemma split_slash_two (s t : string) :
  exists seg1 seg2 segs, split_slash (s ++ "/" ++ t) = seg1 :: seg2 :: segs.
Proof.
  induction s as [|c s IH]; cbn [append split_slash].
  - rewrite Ascii.eqb_refl.
    destruct (split_slash t) as [|seg segs] eqn:Ht;
      [now apply split_slash_nonempty in Ht|].
    now exists EmptyString, seg, segs.
  - destruct IH as (seg1 & seg2 & segs & IH).
    cbn [append] in IH. rewrite IH.
    destruct (c =? "/")%char; eauto.
Qed.

Lemma pop_split_slash (s t : string) :
  pop (split_slash (s ++ "/" ++ t)) = pop (split_slash t).
Proof.
  unfold pop. induction s as [|c s IH]; cbn [append split_slash].
  - rewrite Ascii.eqb_refl.
    destruct (split_slash t) as [|seg segs] eqn:Ht;
      [now apply split_slash_nonempty in Ht | reflexivity].
  - destruct (split_slash_two s t) as (seg1 & seg2 & segs & Hs).
    cbn [append] in Hs, IH. rewrite Hs in *.
    destruct (c =? "/")%char; exact IH.
Qed.

Lemma remove_first_absent (s p : string) :
  includes s p = false -> remove_first s p = s.
Proof.
  induction s as [|c s IH]; intros H.
  - cbn [includes] in H. apply orb_false_iff in H. destruct H as [H _].
    cbn [remove_first]. now rewrite H.
  - cbn [includes] in H. apply orb_false_iff in H. destruct H as [H Hs].
    cbn [remove_first]. rewrite H. now rewrite IH.
Qed.

Lemma remove_first_git (a b : string) :
  includes a ".git" = false ->
  remove_first (a ++ ".git" ++ b) ".git" = (a ++ b)%string.
Proof.
  induction a as [|c a IH]; intros H; [reflexivity|].
  cbn [includes] in H. apply orb_false_iff in H. destruct H as [Hc Ha].
  cbn [append remove_first].
  replace (startsWith (String c (a ++ String "." (String "g" (String "i"
             (String "t" b))))) ".git") with false.
  - f_equal. now apply IH.
  - symmetry. destruct a as [|d [|e [|f a]]]; cbn in *;
      rewrite ?andb_false_r; auto.
Qed.

(** X5. A URL that ends with a slash gives the empty repository name,
    whatever comes before the slash. *)
Theorem repoName_of_trailing_slash :
  forall (url : string), repoName_of (url ++ "/") = "".
Proof.
  intros url. unfold repoName_of.
  change (url ++ "/")%string with (url ++ "/" ++ "")%string.
  now rewrite pop_split_slash.
Qed.

(** X6. The repository name is the part of the URL after the last slash
    with the first [.git] taken out, wherever it stands: a name without
    [.git] is kept, a final [.git] is dropped, and what follows a [.git]
    inside the name is joined to what precedes it. *)
Theorem repoName_of_removes_first_git :
  forall (base a b : string),
    includes (a ++ ".git" ++ b) "/" = false ->
    includes a ".git" = false ->
    repoName_of (base ++ "/" ++ a ++ ".git" ++ b) = (a ++ b)%string
    /\ (includes a "/" = false -> repoName_of (base ++ "/" ++ a) = a).
Proof.
  intros base a b Hslash Hgit. unfold repoName_of. split.
  - rewrite pop_split_slash, (split_slash_whole _ Hslash).
    now apply remove_first_git.
  - intros Ha. rewrite pop_split_slash, (split_slash_whole _ Ha).
    now apply remove_first_absent.
Qed.

Lemma repoName_of_removes_first_git_witness :
  repoName_of "https://github.com/octocat/octocat.github.io" = "octocathub.io"
  /\ repoName_of "https://github.com/octocat/Spoon-Knife.git" = "Spoon-Knife".
Proof.
  split.
  - apply (proj1 (@repoName_of_removes_first_git "https://github.com/octocat"
                    "octocat" "hub.io" eq_refl eq_refl)).
  - apply (proj1 (@repoName_of_removes_first_git "https://github.com/octocat"
                    "Spoon-Knife" "" eq_refl eq_refl)).
Defined.

(** ** A logic for the trace of the command line *)

Section Emits.

Variables A B : Type.

Lemma emits_ret (a : A) (Q : settled A -> list action -> Prop) :
  Q (Fulfilled a) [] -> emits (ret a) Q.
Proof. intros H t. exists (Fulfilled a), []. now rewrite app_nil_r. Qed.

Lemma emits_throw (e : error) (Q : settled A -> list action -> Prop) :
  Q (Rejected e) [] -> emits (throw e) Q.
Proof. intros H t. exists (Rejected e), []. now rewrite app_nil_r. Qed.

Lemma emits_await (p : settled A) (Q : settled A -> list action -> Prop) :
  Q p [] -> emits (await p) Q.
Proof.
  intros H t. exists p, []. rewrite app_nil_r. now destruct p.
Qed.

Lemma emits_bind (m : M (list action) A) (k : A -> M (list action) B)
  (Q : settled B -> list action -> Prop) :
  emits m (fun r1 acts1 =>
             match r1 with
             | Fulfilled a => emits (k a) (fun r acts2 => Q r (acts1 ++ acts2))
             | Rejected e => Q (Rejected e) acts1
             end) ->
  emits (bind m k) Q.
Proof.
  intros Hm t. destruct (Hm t) as (r1 & acts1 & Hrun & H1).
  unfold bind. rewrite Hrun. destruct r1 as [a|e].
  - destruct (H1 (t ++ acts1)) as (r & acts2 & Hk & HQ).
    exists r, (acts1 ++ acts2). now rewrite app_assoc.
  - now exists (Rejected e), acts1.
Qed.

Lemma emits_try (body : M (list action) A) (handler : error -> M (list action) A)
  (Q : settled A -> list action -> Prop) :
  emits body (fun r1 acts1 =>
                match r1 with
                | Fulfilled a => Q (Fulfilled a) acts1
                | Rejected e =>
                    emits (handler e) (fun r acts2 => Q r (acts1 ++ acts2))
                end) ->
  emits (try_catch body handler) Q.
Proof.
  intros Hm t. destruct (Hm t) as (r1 & acts1 & Hrun & H1).
  unfold try_catch. rewrite Hrun. destruct r1 as [a|e].
  - now exists (Fulfilled a), acts1.
  - destruct (H1 (t ++ acts1)) as (r & acts2 & Hk & HQ).
    exists r, (acts1 ++ acts2). now rewrite app_assoc.
Qed.

Lemma emits_consequence (m : M (list action) A)
  (Q1 Q2 : settled A -> list action -> Prop) :
  emits m Q1 -> (forall r acts, Q1 r acts -> Q2 r acts) -> emits m Q2.
Proof.
  intros Hm HQ t. destruct (Hm t) as (r & acts & Hrun & H1).
  exists r, acts. auto.
Qed.

End Emits.

Lemma emits_act (a : action) (Q : settled unit -> list action -> Prop) :
  Q (Fulfilled tt) [a] -> emits (act a) Q.
Proof. intros H t. now exists (Fulfilled tt), [a]. Qed.

Lemma emits_when (c : bool) (m : M (list action) unit)
  (Q : settled unit -> list action -> Prop) :
  (c = true -> emits m Q) -> (c = false -> Q (Fulfilled tt) []) ->
  emits (when c m) Q.
Proof.
  intros Ht Hf. destruct c; [now apply Ht | apply emits_ret; now apply Hf].
Qed.

(** One step of the program: the rule of its first construct. *)
Ltac emits_step :=
  lazymatch goal with
  | |- emits (bind _ _) _ => apply emits_bind
  | |- emits (try_catch _ _) _ => apply emits_try
  | |- emits (act _) _ => apply emits_act
  | |- emits (ret _) _ => apply emits_ret
  | |- emits (throw _) _ => apply emits_throw
  | |- emits (await ?p) _ =>
      apply emits_await; destruct p eqn:?
  | |- emits (when ?c _) _ =>
      let H := fresh "Hc" in destruct c eqn:H; cbn [when]
  | |- emits (if ?c then _ else _) _ =>
      let H := fresh "Hc" in destruct c eqn:H
  end; cbn beta iota.

Ltac emits_run :=
  repeat emits_step;
  repeat match goal with u : unit |- _ => destruct u end;
  cbn [app].

(** ** [cleanup], [writeOutput] and [validateInput] *)

Section CommandLineSteps.

Variable formatFileSize : Z -> string.
Variable path_join : string -> string -> string.
Variable path_basename : string -> string.
Variable path_resolve : string -> path.
Variable E : env.
Variable W : machine.
Variable cli_input : list string.
Variable cli_flags : flags.

Lemma cleanup_emits (directory : string) :
  emits (cleanup E W directory)
    (fun r acts =>
       r = Fulfilled tt
       /\ (acts = [Rm directory]
           \/ (rm W directory <> Fulfilled tt
               /\ acts = [Rm directory;
                          ConsoleErrorText
                            "Warning: Failed to clean up temporary files"]))).
Proof.
  unfold cleanup. emits_run; (split; [reflexivity|]); auto.
  - right. split; [congruence | reflexivity].
Qed.

Lemma writeOutput_emits (content outputPath : string) :
  emits (writeOutput E W content outputPath)
    (fun r acts =>
       r = writeFile W outputPath content
       /\ Forall (fun a => write_action outputPath content a = true) acts
       /\ In (WriteFile outputPath content) acts).
Proof.
  unfold writeOutput, spinner_on. emits_run.
  all: split; [congruence|]; split;
    [ repeat constructor; cbn; now rewrite ?String.eqb_refl
    | cbn; auto ].
Qed.

Lemma validateInput_emits (input : list string) (fl : flags) :
  emits (validateInput path_join W input fl)
    (fun r acts =>
       Forall (fun a => is_stat a = true) acts
       /\ match r with
          | Fulfilled (Local p) =>
              flag_local fl = true /\ hd_error input = Some p
              /\ stat_isDirectory W p = Fulfilled true
              /\ stat_isDirectory W (path_join p ".git") = Fulfilled true
          | Fulfilled (Remote url) =>
              flag_local fl = false /\ hd_error input = Some url /\ acts = []
              /\ (includes url "github.com" = true \/ short_format url = true)
          | Rejected e =>
              match input with
              | [] => e = "Repository URL or path is required"
              | _ :: _ =>
                  if flag_local fl
                  then e = "Invalid local repository path. Make sure it's a Git repository."
                  else e = "Only GitHub repositories or local paths (with --local flag) are supported"
              end
          end).
Proof.
  unfold validateInput, validateLocalRepo.
  destruct input as [|src rest]; [emits_run; auto|].
  destruct (flag_local fl) eqn:Hlocal.
  - emits_run; cbn [negb] in *; try discriminate;
      repeat match goal with
        | H : andb _ _ = _ |- _ => apply andb_prop in H; destruct H
        | H : negb _ = true |- _ => apply negb_true_iff in H
        | H : negb _ = false |- _ => apply negb_false_iff in H
        end; subst;
      (split; [repeat constructor|]); auto.
    all: try discriminate.
    all: repeat split; auto; congruence.
  - emits_run; (split; [repeat constructor|]); auto.
    apply andb_false_iff in Hc. rewrite !negb_false_iff in Hc.
    repeat split; auto.
Qed.

Lemma download_action_forall (tempDir : string) (l1 l2 : list action) :
  Forall (fun a => download_action tempDir a = true) l1 ->
  Forall (fun a => download_action tempDir a = true) l2 ->
  Forall (fun a => download_action tempDir a = true) (l1 ++ l2).
Proof. intros H1 H2. apply Forall_app. now split. Qed.

Lemma downloadRepository_emits (url : string) :
  let tempDir := tempDir_of path_join W in
  emits (downloadRepository path_join E W cli_flags url)
    (fun r acts =>
       Forall (fun a => download_action tempDir a = true) acts
       /\ match r with
          | Fulfilled target =>
              target = (tempDir, repoName_of url)
              /\ (forall p, ~ In (Rm p) acts)
              /\ exists normalized,
                   normalizeGitHubUrl url = Fulfilled normalized
                   /\ In (Exec ("git clone --depth 1 " ++ normalized ++ " "
                                ++ tempDir)) acts
          | Rejected e =>
              In (Rm tempDir) acts
              /\ (normalizeGitHubUrl url = Rejected e
                  \/ exists normalized,
                       normalizeGitHubUrl url = Fulfilled normalized
                       /\ (mkdir W tempDir = Rejected e
                           \/ execAsync W ("git clone --depth 1 " ++ normalized
                                           ++ " " ++ tempDir) = Rejected e
                           \/ readdir W tempDir = Rejected e
                           \/ (readdir W tempDir = Fulfilled []
                               /\ e = "Repository appears to be empty")))
          end
       /\ (forall e, normalizeGitHubUrl url = Rejected e ->
           r = Rejected e
           /\ forall a, In a acts -> changes_files a = true -> a = Rm tempDir)).
Proof.
  clear formatFileSize path_basename path_resolve cli_input.
  intros tempDir. unfold downloadRepository, cleanup, spinner_on.
  fold (tempDir_of path_join W). fold tempDir.
  emits_run.
  all: split;
    [ repeat constructor; cbn; now rewrite ?String.eqb_refl
    | split ].
  all: try match goal with
       | |- forall e, Fulfilled _ = Rejected e -> _ => intros e' He'; discriminate He'
       | |- forall e, Rejected _ = Rejected e -> _ =>
           intros e' He'; injection He' as <-; split; [reflexivity|];
           intros a0 Hin Hch; cbn in Hin;
           repeat (destruct Hin as [<- | Hin]; [try discriminate Hch; try reflexivity|]);
           contradiction
       end.
  all: try match goal with
       | |- In _ _ /\ _ =>
           split; [cbn; tauto|];
           first [ left; reflexivity
                 | right; eexists; split; [reflexivity|];
                   first [ left; reflexivity
                         | right; left; eassumption
                         | right; right; left; reflexivity
                         | right; right; right; split;
                           [ f_equal;
                             match goal with
                             | H : (List.length ?l =? 0) = true |- _ =>
                                 destruct l; [reflexivity | discriminate H]
                             end
                           | reflexivity ] ] ]
       | |- _ = _ /\ _ =>
           split; [reflexivity|]; split;
           [ intros p0 Hin; cbn in Hin;
             repeat (destruct Hin as [Hin | Hin]; [discriminate Hin|]);
             contradiction
           | eexists; split; [reflexivity | cbn; tauto] ]
       end.
Qed.

Lemma processFiles_call_emits (targetDir : string) (opts : options) :
  emits (processFiles_call formatFileSize path_resolve E W targetDir opts)
    (fun r acts =>
       exists evs,
         processFiles formatFileSize E (path_resolve targetDir) opts
           (snapshot W targetDir) [] = (r, evs)
         /\ acts = map Effect evs).
Proof.
  intros trace. unfold processFiles_call.
  destruct (processFiles formatFileSize E (path_resolve targetDir) opts
              (snapshot W targetDir) []) as [r evs].
  exists r, (map Effect evs). split; [reflexivity|]. now exists evs.
Qed.

(** Every case of [In x l] for a list built from parts that are known
    by what they hold. *)
Ltac in_cases H :=
  lazymatch type of H with
  | In _ (_ ++ _) =>
      apply in_app_or in H; destruct H as [H|H]; in_cases H
  | In _ (_ :: _) => destruct H as [H|H]; [|in_cases H]
  | In _ [] => contradiction H
  | In _ (map Effect _) =>
      apply in_map_iff in H; destruct H as (? & H & ?)
  | In ?x ?l =>
      match goal with
      | F : Forall _ l |- _ =>
          let C := fresh "C" in
          pose proof (proj1 (Forall_forall _ _) F _ H) as C; cbn in C
      | _ => idtac
      end
  | _ => idtac
  end.

(** What is left of a case once the part of the trace is known. *)
Ltac settle :=
  subst;
  try discriminate;
  try congruence;
  try match goal with
      | C : (_ && _)%bool = true |- _ =>
          let C1 := fresh "C" in
          let C2 := fresh "C" in
          apply andb_prop in C; destruct C as [C1 C2];
          apply String.eqb_eq in C1; apply String.eqb_eq in C2; subst
      | C : (_ =? _)%string = true |- _ => apply String.eqb_eq in C; subst
      end;
  try congruence;
  try match goal with
      | H : forall p, ~ In (Rm p) ?l, H' : In (Rm _) ?l |- _ =>
          exfalso; exact (H _ H')
      end.

Ltac in_solve := rewrite ?in_app_iff; cbn [In]; eauto 12.

Ltac main_leaf :=
  rewrite ?app_nil_r;
  try match goal with
      | |- context [if (?e =? "")%string then ConsoleErrorObject _ else _] =>
          destruct (e =? "")%string
      end;
  (refine (conj eq_refl (conj _ (conj _ (conj _ (conj _ (conj _ (conj _ _)))))));
  [ intros c H; in_cases H; settle
  | first [ left; solve [in_solve]
          | right; do 2 eexists; split; [solve [in_solve] | congruence] ]
  | intros Hexit p data Hw;
    first [ solve [in_cases Hexit; settle]
          | solve [in_cases Hw; settle] ]
  | intros p data Hw; in_cases Hw; settle;
    (split;
     [ intros ->; discriminate
     | do 2 eexists; split; [eassumption|];
       match goal with
       | Hflag : flag_local _ = _ |- _ => rewrite Hflag
       end;
       split; [eassumption | reflexivity] ])
  | intros Hl a Ha Hch; try congruence;
    in_cases Ha; settle;
    try (destruct a; try discriminate; eauto; fail)
  | intros ev Hrep Hev Hexit p Hrm;
    first [ solve [in_cases Hexit; settle]
          | solve [in_cases Hev; settle]
          | solve [in_cases Hrm; settle] ]
  | intros p Hrm; in_cases Hrm; settle; try reflexivity ]).

Lemma main_emits :
  let tempDir := tempDir_of path_join W in
  let opts := mkOptions (flag_threshold cli_flags) (flag_includeAll cli_flags) in
  emits (main formatFileSize path_join path_basename path_resolve E W
           cli_input cli_flags)
    (fun r acts =>
       r = Fulfilled tt
       /\ (forall c, In (ProcessExit c) acts -> c = 1%Z)
       /\ (In (ProcessExit 1) acts
           \/ exists p data,
                In (WriteFile p data) acts
                /\ writeFile W p data = Fulfilled tt)
       /\ (In (ProcessExit 1) acts ->
           forall p data,
             In (WriteFile p data) acts -> writeFile W p data <> Fulfilled tt)
       /\ (forall p data,
             In (WriteFile p data) acts ->
             data <> ""
             /\ exists src evs,
                  hd_error cli_input = Some src
                  /\ processFiles formatFileSize E
                       (path_resolve
                          (if flag_local cli_flags then src else tempDir))
                       opts
                       (snapshot W
                          (if flag_local cli_flags then src else tempDir))
                       [] = (Fulfilled data, evs)
                  /\ p = outputPath_of cli_flags
                           (if flag_local cli_flags then path_basename src
                            else repoName_of src))
       /\ (flag_local cli_flags = true ->
           forall a, In a acts -> changes_files a = true ->
                     exists p data, a = WriteFile p data)
       /\ (forall ev, is_report ev = false -> In (Effect ev) acts ->
           In (ProcessExit 1) acts -> forall p, ~ In (Rm p) acts)
       /\ (forall p, In (Rm p) acts -> p = tempDir)).
Proof.
  intros tempDir opts. unfold main. apply emits_try. apply emits_bind.
  eapply emits_consequence; [apply validateInput_emits|].
  intros r av (Hav & Hr). destruct r as [[src|url]|e].
  - (* a local repository *)
    destruct Hr as (Hlocal & Hhd & _).
    emits_step. emits_step. cbn [fst snd]. emits_step.
    eapply emits_consequence; [apply processFiles_call_emits|].
    intros rp ap (evs & Hrun & ->). destruct rp as [content|e].
    + emits_step. emits_step.
      * emits_run. main_leaf.
      * emits_step. emits_step.
        eapply emits_consequence; [apply writeOutput_emits|].
        intros rw aw (Hrw & Haw & Hin). destruct rw as [[]|e].
        -- emits_run. main_leaf.
        -- emits_run. main_leaf.
    + emits_run. main_leaf.
  - (* a remote repository *)
    destruct Hr as (Hremote & Hhd & -> & _).
    emits_step.
    eapply emits_consequence; [apply (@downloadRepository_emits url)|].
    fold tempDir.
    intros rd ad (Had & Hrd & _). destruct rd as [[d n]|e].
    + destruct Hrd as (Htarget & Hnorm & _). injection Htarget as -> ->.
      cbn [fst snd]. emits_step.
      eapply emits_consequence; [apply processFiles_call_emits|].
      intros rp ap (evs & Hrun & ->). destruct rp as [content|e].
      * emits_step. emits_step.
        -- emits_run. main_leaf.
        -- emits_step. emits_step.
           eapply emits_consequence; [apply writeOutput_emits|].
           intros rw aw (Hrw & Haw & Hin). destruct rw as [[]|e].
           ++ eapply emits_consequence; [apply cleanup_emits|].
              intros rc ac (-> & [-> | [_ ->]]); main_leaf.
           ++ emits_run. main_leaf.
      * emits_run. main_leaf.
    + destruct Hrd as (Hcleaned & _). emits_run. main_leaf.
  - emits_run. main_leaf.
Qed.

End CommandLineSteps.

Example main_on_a_remote_repository :
  main Desk.bytes Desk.join2 Desk.basename Desk.resolve Desk.production
    Desk.fine ["octocat/Spoon-Knife"] Desk.remote_flags [] =
  (Fulfilled tt,
   [Effect (OraStart "Downloading repository...");
    Mkdir "/tmp/git2txt-42";
    Exec "git clone --depth 1 https://github.com/octocat/Spoon-Knife /tmp/git2txt-42";
    Readdir "/tmp/git2txt-42";
    Effect (OraSucceed "Repository downloaded successfully");
    Effect (OraStart "Processing files...");
    Effect (FsReaddir ["tmp"; "git2txt-42"]);
    Effect (FsStat ["tmp"; "git2txt-42"; "a.txt"]);
    Effect (IsBinaryFile ["tmp"; "git2txt-42"; "a.txt"]);
    Effect (FsReadFile ["tmp"; "git2txt-42"; "a.txt"]);
    Effect (OraSucceed "Processed 1 files successfully (0 skipped)");
    Effect (OraStart "Writing output file...");
    WriteFile "Spoon-Knife.txt"
      (record Desk.bytes "a.txt" 5 "hello");
    Effect (OraSucceed "Output saved to Spoon-Knife.txt");
    Rm "/tmp/git2txt-42"]).
Proof. vm_compute. reflexivity. Qed.

Example main_without_input :
  main Desk.bytes Desk.join2 Desk.basename Desk.resolve
    (mkEnv true false) Desk.fine [] Desk.remote_flags [] =
  (Fulfilled tt,
   [ConsoleErrorText (String "010" "An error occurred:");
    ConsoleErrorText "Repository URL or path is required";
    ProcessExit 1]).
Proof. vm_compute. reflexivity. Qed.

Lemma emits_inversion (A : Type) (m : M (list action) A)
  (Q : settled A -> list action -> Prop) (trace trace' : list action)
  (r : settled A) :
  emits m Q -> m trace = (r, trace') ->
  exists acts, trace' = trace ++ acts /\ Q r acts.
Proof.
  intros Hm Hrun. destruct (Hm trace) as (r0 & acts & Heq & HQ).
  rewrite Heq in Hrun. injection Hrun as <- <-. now exists acts.
Qed.

Lemma startsWith_includes (s a p c : string) :
  startsWith s (a ++ p ++ c) = true -> includes s p = true.
Proof.
  intros H. apply startsWith_split in H. rewrite H.
  rewrite !append_assoc. apply includes_app.
Qed.

(** ** [downloadRepository] *)

(** X7. When [downloadRepository] rejects, it has called [fs.rm] on its
    temporary directory, and the error is that of the step that failed (the
    URL, [fs.mkdir], the [git] command, [fs.readdir] or an empty clone),
    also when [fs.rm] itself fails. *)
Theorem downloadRepository_cleans_up_on_failure :
  forall (path_join : string -> string -> string) (E : env) (W : machine)
         (cli_flags : flags) (url : string) (trace trace' : list action)
         (e : error),
    downloadRepository path_join E W cli_flags url trace
    = (Rejected e, trace') ->
    exists acts,
      trace' = trace ++ acts
      /\ In (Rm (tempDir_of path_join W)) acts
      /\ (normalizeGitHubUrl url = Rejected e
          \/ exists normalized,
               normalizeGitHubUrl url = Fulfilled normalized
               /\ (mkdir W (tempDir_of path_join W) = Rejected e
                   \/ execAsync W ("git clone --depth 1 " ++ normalized ++ " "
                                   ++ tempDir_of path_join W) = Rejected e
                   \/ readdir W (tempDir_of path_join W) = Rejected e
                   \/ (readdir W (tempDir_of path_join W) = Fulfilled []
                       /\ e = "Repository appears to be empty"))).
Proof.
  intros path_join E W cli_flags url trace trace' e Hrun.
  pose proof (@downloadRepository_emits path_join E W cli_flags url) as Hspec.
  cbv zeta in Hspec.
  destruct (@emits_inversion _ _ _ _ _ _ Hspec Hrun)
    as (acts & Htrace & _ & (Hrm & Herr) & _).
  exists acts. auto.
Qed.

Lemma downloadRepository_cleans_up_on_failure_witness :
  exists acts,
    snd (downloadRepository Desk.join2 Desk.production Desk.offline
           Desk.remote_flags "octocat/Spoon-Knife" []) = [] ++ acts
    /\ In (Rm "/tmp/git2txt-42") acts.
Proof.
  destruct (@downloadRepository_cleans_up_on_failure Desk.join2
              Desk.production Desk.offline Desk.remote_flags
              "octocat/Spoon-Knife" []
              (snd (downloadRepository Desk.join2 Desk.production Desk.offline
                      Desk.remote_flags "octocat/Spoon-Knife" []))
              "Command failed: git clone")
    as (acts & Htrace & Hrm & _).
  - vm_compute. reflexivity.
  - exists acts. split; [exact Htrace | exact Hrm].
Defined.

(** X8. For a URL that [normalizeGitHubUrl] rejects, [downloadRepository]
    rejects with that error and changes nothing on the machine but for the
    call of [fs.rm] on its temporary directory: no directory is made and
    [git] is not run. *)
Theorem downloadRepository_invalid_url :
  forall (path_join : string -> string -> string) (E : env) (W : machine)
         (cli_flags : flags) (url : string) (trace : list action) (e : error),
    normalizeGitHubUrl url = Rejected e ->
    exists acts,
      downloadRepository path_join E W cli_flags url trace
      = (Rejected e, trace ++ acts)
      /\ forall a, In a acts -> changes_files a = true ->
                   a = Rm (tempDir_of path_join W).
Proof.
  intros path_join E W cli_flags url trace e Hurl.
  destruct (@downloadRepository_emits path_join E W cli_flags url trace)
    as (r & acts & Hrun & _ & _ & Hinvalid).
  destruct (Hinvalid e Hurl) as (-> & Hacts).
  now exists acts.
Qed.

Lemma downloadRepository_invalid_url_witness :
  exists acts,
    downloadRepository Desk.join2 Desk.production Desk.fine Desk.remote_flags
      "https://gitlab.com/user/repo" []
    = (Rejected "Invalid GitHub URL: https://gitlab.com/user/repo", [] ++ acts).
Proof.
  destruct (@downloadRepository_invalid_url Desk.join2 Desk.production
              Desk.fine Desk.remote_flags "https://gitlab.com/user/repo" []
              "Invalid GitHub URL: https://gitlab.com/user/repo")
    as (acts & Hrun & _).
  - vm_compute. reflexivity.
  - now exists acts.
Defined.

(** X9. When [downloadRepository] returns, it returns its temporary
    directory and the name taken from the URL as given; it has run
    [git clone --depth 1] on the normalized URL and the temporary
    directory, both copied as they are into the command, and it has not
    called [fs.rm]. *)
Theorem downloadRepository_success :
  forall (path_join : string -> string -> string) (E : env) (W : machine)
         (cli_flags : flags) (url : string) (trace trace' : list action)
         (target : string * string),
    downloadRepository path_join E W cli_flags url trace
    = (Fulfilled target, trace') ->
    target = (tempDir_of path_join W, repoName_of url)
    /\ exists acts normalized,
         trace' = trace ++ acts
         /\ normalizeGitHubUrl url = Fulfilled normalized
         /\ In (Exec ("git clone --depth 1 " ++ normalized ++ " "
                      ++ tempDir_of path_join W)) acts
         /\ (forall p, ~ In (Rm p) acts)
         /\ Forall (fun a => download_action (tempDir_of path_join W) a = true)
              acts.
Proof.
  intros path_join E W cli_flags url trace trace' target Hrun.
  pose proof (@downloadRepository_emits path_join E W cli_flags url) as Hspec.
  cbv zeta in Hspec.
  destruct (@emits_inversion _ _ _ _ _ _ Hspec Hrun)
    as (acts & Htrace & Hall & (Htarget & Hrm & normalized & Hurl & Hexec) & _).
  split; [exact Htarget|]. exists acts, normalized. auto.
Qed.

Lemma downloadRepository_success_witness :
  exists acts,
    In (Exec "git clone --depth 1 https://github.com/octocat/Spoon-Knife /tmp/git2txt-42")
       acts
    /\ forall p, ~ In (Rm p) acts.
Proof.
  destruct (@downloadRepository_success Desk.join2 Desk.production Desk.fine
              Desk.remote_flags "octocat/Spoon-Knife" []
              (snd (downloadRepository Desk.join2 Desk.production Desk.fine
                      Desk.remote_flags "octocat/Spoon-Knife" []))
              ("/tmp/git2txt-42", "Spoon-Knife"))
    as (_ & acts & normalized & _ & Hurl & Hexec & Hrm & _).
  - vm_compute. reflexivity.
  - vm_compute in Hurl. injection Hurl as <-.
    exists acts. split; [exact Hexec | exact Hrm].
Defined.

(** ** [validateInput] *)

(** X10. With [--local], [validateInput] accepts the path exactly when
    [fs.stat] succeeds on it and on its [.git] entry and both are
    directories; in every other case, also when [fs.stat] rejects, it
    rejects with its own message.  It calls nothing but [fs.stat]. *)
Theorem validateInput_local_repository :
  forall (path_join : string -> string -> string) (W : machine)
         (src : string) (rest : list string) (fl : flags)
         (trace trace' : list action) (r : settled source),
    flag_local fl = true ->
    validateInput path_join W (src :: rest) fl trace = (r, trace') ->
    (r = Fulfilled (Local src)
     <-> (stat_isDirectory W src = Fulfilled true
          /\ stat_isDirectory W (path_join src ".git") = Fulfilled true))
    /\ (r = Fulfilled (Local src)
        \/ r = Rejected
                 "Invalid local repository path. Make sure it's a Git repository.")
    /\ exists acts,
         trace' = trace ++ acts /\ Forall (fun a => is_stat a = true) acts.
Proof.
  intros path_join W src rest fl trace trace' r Hlocal Hrun.
  pose proof (@validateInput_emits path_join W (src :: rest) fl) as Hspec.
  destruct (@emits_inversion _ _ _ _ _ _ Hspec Hrun)
    as (acts & Htrace & Hstat & Hr).
  split; [|split; [|now exists acts]].
  - split.
    + intros ->. tauto.
    + intros [H1 H2]. revert Hrun.
      unfold validateInput, validateLocalRepo, try_catch, bind. rewrite Hlocal.
      cbn. rewrite H1. cbn. rewrite H2. cbn. unfold ret. congruence.
  - destruct r as [[p|url]|e].
    + left. destruct Hr as (_ & Hhd & _). cbn in Hhd. congruence.
    + destruct Hr as (Hremote & _). congruence.
    + right. rewrite Hlocal in Hr. now subst e.
Qed.

Lemma validateInput_local_repository_witness :
  validateInput Desk.join2 Desk.fine ["./my-repo"] Desk.local_flags []
  = (Fulfilled (Local "./my-repo"), [Stat "./my-repo"; Stat "./my-repo/.git"])
  /\ exists acts,
       [Stat "./my-repo"; Stat "./my-repo/.git"] = [] ++ acts
       /\ Forall (fun a => is_stat a = true) acts.
Proof.
  split; [vm_compute; reflexivity|].
  apply (@validateInput_local_repository Desk.join2 Desk.fine "./my-repo" []
           Desk.local_flags [] [Stat "./my-repo"; Stat "./my-repo/.git"]
           (Fulfilled (Local "./my-repo")) eq_refl).
  vm_compute. reflexivity.
Defined.

(** X11. Without [--local], [validateInput] accepts every source without
    trailing slash that [normalizeGitHubUrl] accepts, and calls nothing. *)
Theorem validateInput_accepts_normalizable :
  forall (path_join : string -> string -> string) (W : machine)
         (src normalized : string) (rest : list string) (fl : flags)
         (trace : list action),
    flag_local fl = false ->
    strip_trailing_slashes src = src ->
    normalizeGitHubUrl src = Fulfilled normalized ->
    validateInput path_join W (src :: rest) fl trace
    = (Fulfilled (Remote src), trace).
Proof.
  intros path_join W src normalized rest fl trace Hremote Hstrip Hurl.
  assert (Hok : includes src "github.com" = true \/ short_format src = true).
  { destruct (normalizeGitHubUrl_cases src)
      as [[_ [Hgit | Hhttps]] | [[_ Hshort] | [H1 _]]];
      rewrite ?Hstrip in *.
    - left. now apply (@startsWith_includes src "git@" "github.com" ":").
    - left. now apply (@startsWith_includes src "https://" "github.com" "/").
    - now right.
    - rewrite H1 in Hurl. discriminate. }
  unfold validateInput. rewrite Hremote.
  destruct Hok as [-> | ->]; rewrite ?andb_false_r; reflexivity.
Qed.

Lemma validateInput_accepts_normalizable_witness :
  validateInput Desk.join2 Desk.fine ["octocat/Spoon-Knife"]
    Desk.remote_flags []
  = (Fulfilled (Remote "octocat/Spoon-Knife"), []).
Proof.
  apply (@validateInput_accepts_normalizable Desk.join2 Desk.fine
           "octocat/Spoon-Knife" "https://github.com/octocat/Spoon-Knife"
           [] Desk.remote_flags [] eq_refl eq_refl).
  vm_compute. reflexivity.
Defined.

(** ** [main] *)

(** X12. [main] never rejects.  The only exit code it uses is 1, and it
    either calls [process.exit(1)] or has written the output with a
    successful [fs.writeFile], never both. *)
Theorem main_exits_or_writes :
  forall (formatFileSize : Z -> string)
         (path_join : string -> string -> string)
         (path_basename : string -> string) (path_resolve : string -> path)
         (E : env) (W : machine) (cli_input : list string) (cli_flags : flags)
         (trace trace' : list action) (r : settled unit),
    main formatFileSize path_join path_basename path_resolve E W
      cli_input cli_flags trace = (r, trace') ->
    r = Fulfilled tt
    /\ exists acts,
         trace' = trace ++ acts
         /\ (forall c, In (ProcessExit c) acts -> c = 1%Z)
         /\ (In (ProcessExit 1) acts
             \/ exists p data,
                  In (WriteFile p data) acts
                  /\ writeFile W p data = Fulfilled tt)
         /\ (In (ProcessExit 1) acts ->
             forall p data,
               In (WriteFile p data) acts ->
               writeFile W p data <> Fulfilled tt).
Proof.
  intros formatFileSize path_join path_basename path_resolve E W cli_input
    cli_flags trace trace' r Hrun.
  pose proof (@main_emits formatFileSize path_join path_basename path_resolve
                E W cli_input cli_flags) as Hspec.
  cbv zeta in Hspec.
  destruct (@emits_inversion _ _ _ _ _ _ Hspec Hrun)
    as (acts & Htrace & Hr & Hcode & Hor & Hnot & _).
  split; [exact Hr|]. exists acts. auto.
Qed.

Lemma main_exits_or_writes_witness :
  exists acts,
    snd (main Desk.bytes Desk.join2 Desk.basename Desk.resolve
           Desk.production Desk.readonly ["octocat/Spoon-Knife"]
           Desk.remote_flags []) = [] ++ acts
    /\ forall c, In (ProcessExit c) acts -> c = 1%Z.
Proof.
  destruct (@main_exits_or_writes Desk.bytes Desk.join2 Desk.basename
              Desk.resolve Desk.production Desk.readonly
              ["octocat/Spoon-Knife"] Desk.remote_flags []
              (snd (main Desk.bytes Desk.join2 Desk.basename Desk.resolve
                      Desk.production Desk.readonly ["octocat/Spoon-Knife"]
                      Desk.remote_flags []))
              (Fulfilled tt))
    as (_ & acts & Htrace & Hcode & _).
  - vm_compute. reflexivity.
  - exists acts. split; [exact Htrace | exact Hcode].
Defined.

(** X13. Whatever [main] writes is the text that [processFiles] returned
    with the threshold and the include-all flag of the command line, and it
    is not empty.  With [--local] the directory processed is the first
    argument of the command line and the file written is [--output] or the
    base name of that argument followed by [.txt]; without [--local] the
    directory processed is the temporary directory of the download and the
    file written is [--output] or the repository name taken from the first
    argument followed by [.txt]. *)
Theorem main_writes_the_content_of_processFiles :
  forall (formatFileSize : Z -> string)
         (path_join : string -> string -> string)
         (path_basename : string -> string) (path_resolve : string -> path)
         (E : env) (W : machine) (cli_input : list string) (cli_flags : flags)
         (trace trace' : list action) (r : settled unit),
    main formatFileSize path_join path_basename path_resolve E W
      cli_input cli_flags trace = (r, trace') ->
    exists acts,
      trace' = trace ++ acts
      /\ forall p data,
           In (WriteFile p data) acts ->
           data <> ""
           /\ exists src evs,
                hd_error cli_input = Some src
                /\ processFiles formatFileSize E
                     (path_resolve
                        (if flag_local cli_flags then src
                         else tempDir_of path_join W))
                     (mkOptions (flag_threshold cli_flags)
                                (flag_includeAll cli_flags))
                     (snapshot W
                        (if flag_local cli_flags then src
                         else tempDir_of path_join W))
                     [] = (Fulfilled data, evs)
                /\ p = outputPath_of cli_flags
                         (if flag_local cli_flags then path_basename src
                          else repoName_of src).
Proof.
  intros formatFileSize path_join path_basename path_resolve E W cli_input
    cli_flags trace trace' r Hrun.
  pose proof (@main_emits formatFileSize path_join path_basename path_resolve
                E W cli_input cli_flags) as Hspec.
  cbv zeta in Hspec.
  destruct (@emits_inversion _ _ _ _ _ _ Hspec Hrun)
    as (acts & Htrace & _ & _ & _ & _ & Hwrite & _).
  now exists acts.
Qed.

Lemma main_writes_the_content_of_processFiles_witness :
  exists acts,
    snd (main Desk.bytes Desk.join2 Desk.basename Desk.resolve
           Desk.production Desk.fine ["octocat/Spoon-Knife"]
           Desk.remote_flags [])
    = [] ++ acts
    /\ forall p data,
         In (WriteFile p data) acts ->
         p = "Spoon-Knife.txt"
         /\ data = record Desk.bytes "a.txt" 5 "hello".
Proof.
  destruct (@main_writes_the_content_of_processFiles Desk.bytes Desk.join2
              Desk.basename Desk.resolve Desk.production Desk.fine
              ["octocat/Spoon-Knife"] Desk.remote_flags []
              (snd (main Desk.bytes Desk.join2 Desk.basename Desk.resolve
                      Desk.production Desk.fine ["octocat/Spoon-Knife"]
                      Desk.remote_flags []))
              (Fulfilled tt))
    as (acts & Htrace & Hwrite).
  - vm_compute. reflexivity.
  - exists acts. split; [exact Htrace|].
    intros p data Hin.
    destruct (Hwrite p data Hin) as (_ & src & evs & Hhd & Hrun & Hp).
    injection Hhd as <-. split.
    + rewrite Hp. reflexivity.
    + vm_compute in Hrun. injection Hrun as <- _. reflexivity.
Defined.

(** X14. With [--local], [main] changes nothing on the machine but the
    output file: it makes no directory, runs no command and removes
    nothing, whatever fails. *)
Theorem main_local_changes_the_output_only :
  forall (formatFileSize : Z -> string)
         (path_join : string -> string -> string)
         (path_basename : string -> string) (path_resolve : string -> path)
         (E : env) (W : machine) (cli_input : list string) (cli_flags : flags)
         (trace trace' : list action) (r : settled unit),
    flag_local cli_flags = true ->
    main formatFileSize path_join path_basename path_resolve E W
      cli_input cli_flags trace = (r, trace') ->
    exists acts,
      trace' = trace ++ acts
      /\ forall a, In a acts -> changes_files a = true ->
                   exists p data, a = WriteFile p data.
Proof.
  intros formatFileSize path_join path_basename path_resolve E W cli_input
    cli_flags trace trace' r Hlocal Hrun.
  pose proof (@main_emits formatFileSize path_join path_basename path_resolve
                E W cli_input cli_flags) as Hspec.
  cbv zeta in Hspec.
  destruct (@emits_inversion _ _ _ _ _ _ Hspec Hrun)
    as (acts & Htrace & _ & _ & _ & _ & _ & Hchange & _).
  exists acts. auto.
Qed.

Lemma main_local_changes_the_output_only_witness :
  exists acts,
    snd (main Desk.bytes Desk.join2 Desk.basename Desk.resolve
           Desk.production Desk.fine ["./my-repo"] Desk.local_flags [])
    = [] ++ acts
    /\ ~ In (Rm "./my-repo") acts.
Proof.
  destruct (@main_local_changes_the_output_only Desk.bytes Desk.join2
              Desk.basename Desk.resolve Desk.production Desk.fine
              ["./my-repo"] Desk.local_flags []
              (snd (main Desk.bytes Desk.join2 Desk.basename Desk.resolve
                      Desk.production Desk.fine ["./my-repo"]
                      Desk.local_flags []))
              (Fulfilled tt) eq_refl)
    as (acts & Htrace & Hchange).
  - vm_compute. reflexivity.
  - exists acts. split; [exact Htrace|].
    intros Hin. destruct (Hchange _ Hin eq_refl) as (p & data & Heq).
    discriminate Heq.
Defined.

(** X15. [main] calls [fs.rm] on the temporary directory of the download
    only.  Once [processFiles] has started on the downloaded tree, a run
    that ends with [process.exit(1)] has not removed that directory. *)
Theorem main_removes_the_temporary_directory_only :
  forall (formatFileSize : Z -> string)
         (path_join : string -> string -> string)
         (path_basename : string -> string) (path_resolve : string -> path)
         (E : env) (W : machine) (cli_input : list string) (cli_flags : flags)
         (trace trace' : list action) (r : settled unit),
    main formatFileSize path_join path_basename path_resolve E W
      cli_input cli_flags trace = (r, trace') ->
    exists acts,
      trace' = trace ++ acts
      /\ (forall p, In (Rm p) acts -> p = tempDir_of path_join W)
      /\ (forall ev,
            is_report ev = false -> In (Effect ev) acts ->
            In (ProcessExit 1) acts ->
            forall p, ~ In (Rm p) acts).
Proof.
  intros formatFileSize path_join path_basename path_resolve E W cli_input
    cli_flags trace trace' r Hrun.
  pose proof (@main_emits formatFileSize path_join path_basename path_resolve
                E W cli_input cli_flags) as Hspec.
  cbv zeta in Hspec.
  destruct (@emits_inversion _ _ _ _ _ _ Hspec Hrun)
    as (acts & Htrace & _ & _ & _ & _ & _ & _ & Hleft & Hrm).
  exists acts. auto.
Qed.

Lemma main_removes_the_temporary_directory_only_witness :
  exists acts,
    snd (main Desk.bytes Desk.join2 Desk.basename Desk.resolve
           Desk.production Desk.readonly ["octocat/Spoon-Knife"]
           Desk.remote_flags []) = [] ++ acts
    /\ In (Effect (FsReaddir ["tmp"; "git2txt-42"])) acts
    /\ In (ProcessExit 1) acts
    /\ forall p, ~ In (Rm p) acts.
Proof.
  destruct (@main_removes_the_temporary_directory_only Desk.bytes Desk.join2
              Desk.basename Desk.resolve Desk.production Desk.readonly
              ["octocat/Spoon-Knife"] Desk.remote_flags []
              (snd (main Desk.bytes Desk.join2 Desk.basename Desk.resolve
                      Desk.production Desk.readonly ["octocat/Spoon-Knife"]
                      Desk.remote_flags []))
              (Fulfilled tt))
    as (acts & Htrace & _ & Hleft).
  - vm_compute. reflexivity.
  - exists acts.
    assert (Hacts : acts
                    = snd (main Desk.bytes Desk.join2 Desk.basename
                             Desk.resolve Desk.production Desk.readonly
                             ["octocat/Spoon-Knife"] Desk.remote_flags []))
      by (symmetry; exact Htrace).
    assert (Hstart : In (Effect (FsReaddir ["tmp"; "git2txt-42"])) acts)
      by (rewrite Hacts; vm_compute; tauto).
    assert (Hexit : In (ProcessExit 1) acts)
      by (rewrite Hacts; vm_compute; tauto).
    split; [exact Htrace|]. split; [exact Hstart|]. split; [exact Hexit|].
    exact (Hleft (FsReaddir ["tmp"; "git2txt-42"]) eq_refl Hstart Hexit).
Defined.

(** ** Invariants of the walk *)

Lemma extends_refl (E : env) (st : state) : extends E st st.
Proof.
  exists EmptyString, []. rewrite append_nil_r, app_nil_r.
  repeat split; auto.
Qed.

Lemma extends_trans (E : env) (st1 st2 st3 : state) :
  extends E st1 st2 -> extends E st2 st3 -> extends E st1 st3.
Proof.
  intros (s1 & e1 & Ho1 & Hp1 & Hs1 & He1 & Hq1)
         (s2 & e2 & Ho2 & Hp2 & Hs2 & He2 & Hq2).
  exists (s1 ++ s2)%string, (e1 ++ e2).
  rewrite Ho2, Ho1, He2, He1, append_assoc, app_assoc.
  repeat split; try lia.
  intros Hd. apply Forall_app. auto.
Qed.

Lemma extends_readdir (E : env) (dir : path) (st : state) :
  extends E st (snd (emit (FsReaddir dir) st)).
Proof.
  exists EmptyString, [FsReaddir dir]. cbn. rewrite append_nil_r.
  repeat split; auto.
Qed.

Lemma processEntry_file_extends (formatFileSize : Z -> string) (E : env)
  (directory : path) (opts : options) (dir : path) (name : string)
  (f : file) (st : state) :
  exists st',
    processEntry formatFileSize E directory opts dir name (File f) st
    = (Fulfilled tt, st')
    /\ extends E st st'.
Proof.
  cbn [processEntry].
  unfold processDirectory_try, processDirectory_catch, extends.
  destruct f as [[size|e1] [[|]|e2] [content|e3]];
    cbn [f_stat f_isBinary f_content];
    destruct (includeAll opts); cbn [negb andb];
    destruct (DEBUG E);
    cbv [try_catch bind when emit output_append
      processedFiles_incr skippedFiles_incr modify await ret throw
      output processedFiles skippedFiles effects];
    try destruct (exceeds size (thresholdBytes opts));
    cbv beta iota;
    (eexists; split; [reflexivity|];
     cbn [output processedFiles skippedFiles effects];
     eexists; eexists;
     split; [rewrite ?append_assoc;
             first [reflexivity | symmetry; apply append_nil_r]|];
     split; [lia|]; split; [lia|];
     split; [rewrite <- ?app_assoc; reflexivity|];
     intros Hd; try discriminate Hd; repeat constructor).
Qed.

Lemma processEntries_extends_step (formatFileSize : Z -> string) (E : env)
  (directory : path) (opts : options) (dir : path) (name : string) (n : node)
  (rest : list dirent) :
  (forall st,
     extends E st
       (snd (processEntry formatFileSize E directory opts dir name n st))) ->
  (forall st,
     extends E st
       (snd (processEntries formatFileSize E directory opts dir rest st))) ->
  forall st,
    extends E st
      (snd (processEntries formatFileSize E directory opts dir
              ((name, n) :: rest) st)).
Proof.
  intros Hn Hrest st. cbn [processEntries]. unfold bind.
  specialize (Hn st).
  destruct (processEntry formatFileSize E directory opts dir name n st)
    as [[[]|e] st1]; cbn [snd] in *; [|exact Hn].
  eapply extends_trans; [exact Hn | apply Hrest].
Qed.

Lemma processEntry_extends (formatFileSize : Z -> string) (E : env)
  (directory : path) (opts : options) (n : node) :
  forall (dir : path) (name : string) (st : state),
    extends E st
      (snd (processEntry formatFileSize E directory opts dir name n st)).
Proof.
  induction n as [f | | e | es IH] using node_induction; intros dir name st.
  - destruct (processEntry_file_extends formatFileSize E directory opts
                dir name f st) as (st' & -> & H). exact H.
  - apply extends_refl.
  - rewrite processEntry_dir. destruct (not_reserved name);
      [apply extends_readdir | apply extends_refl].
  - rewrite processEntry_dir. destruct (not_reserved name);
      [|apply extends_refl].
    unfold processDirectory.
    change ((emit (FsReaddir (join dir name));;
             entries <- await (Fulfilled es);;
             processEntries formatFileSize E directory opts (join dir name)
               entries) st)
      with (processEntries formatFileSize E directory opts (join dir name) es
              (snd (emit (FsReaddir (join dir name)) st))).
    apply extends_trans with (snd (emit (FsReaddir (join dir name)) st));
      [apply extends_readdir|].
    generalize (snd (emit (FsReaddir (join dir name)) st)).
    induction IH as [|[nm c] rest Hc _ IHrest]; intros st0.
    + apply extends_refl.
    + apply processEntries_extends_step; [intros st1; apply Hc | exact IHrest].
Qed.

Lemma processEntries_keeps (formatFileSize : Z -> string) (E : env)
  (directory : path) (opts : options) (dir : path) (entries : list dirent) :
  forall st,
    extends E st
      (snd (processEntries formatFileSize E directory opts dir entries st)).
Proof.
  induction entries as [|[name n] rest IH]; intros st.
  - apply extends_refl.
  - apply processEntries_extends_step;
      [intros st0; apply processEntry_extends | exact IH].
Qed.

(** X16. Whatever the loop over the entries of a directory does, also when
    it stops on a directory that cannot be enumerated: the text is only
    appended to, neither counter goes down, the trace only grows, and when
    [DEBUG] is unset nothing is added to it but calls to the file system. *)
Theorem processEntries_extends :
  forall (formatFileSize : Z -> string) (E : env) (directory : path)
         (opts : options) (dir : path) (entries : list dirent) (st : state),
    let st' := snd (processEntries formatFileSize E directory opts dir
                      entries st) in
    exists suffix evs,
      output st' = (output st ++ suffix)%string
      /\ processedFiles st <= processedFiles st'
      /\ skippedFiles st <= skippedFiles st'
      /\ effects st' = effects st ++ evs
      /\ (DEBUG E = false -> Forall (fun ev => is_report ev = false) evs).
Proof.
  intros formatFileSize E directory opts dir entries st.
  apply processEntries_keeps.
Qed.

(** X17. What [processFiles] gives back depends on the tree and on the
    options alone: the error of the first directory that cannot be
    enumerated, or else the records of the included files, whatever the
    environment, the directory name and the earlier effects are. *)
Theorem processFiles_result :
  forall (formatFileSize : Z -> string) (E : env) (directory : path)
         (opts : options) (root : settled (list dirent))
         (world : list event),
    fst (processFiles formatFileSize E directory opts root world)
    = match fatal root with
      | Some e => Rejected e
      | None => Fulfilled (String.concat "" (records formatFileSize opts root))
      end.
Proof.
  intros formatFileSize E directory opts root world.
  pose proof (processFiles_run_follows formatFileSize E directory opts
                root world) as H.
  unfold processFiles.
  destruct (fatal root) as [e|].
  - destruct H as (st & ->). reflexivity.
  - destruct H as (st & -> & (Ho & _) & _). cbn [fst].
    now rewrite Ho.
Qed.

(** X18. With [NODE_ENV] at ['test'] and [DEBUG] unset, [processFiles]
    reports nothing: all it adds to the trace is calls to the file
    system. *)
Theorem processFiles_is_silent :
  forall (formatFileSize : Z -> string) (E : env) (directory : path)
         (opts : options) (root : settled (list dirent))
         (world : list event),
    NODE_ENV_is_test E = true ->
    DEBUG E = false ->
    exists evs,
      snd (processFiles formatFileSize E directory opts root world)
      = world ++ evs
      /\ Forall (fun ev => is_report ev = false) evs.
Proof.
  intros formatFileSize E directory opts root world Htest Hdebug.
  unfold processFiles, processFiles_run, processFiles_body, processDirectory.
  rewrite Htest, Hdebug. cbn [negb when].
  unfold try_catch, bind. cbn [ret emit modify await].
  destruct root as [es|e]; cbn [await ret throw].
  - pose proof (processEntries_keeps formatFileSize E directory opts
                  directory es
                  (mkState (output (initial world))
                     (processedFiles (initial world))
                     (skippedFiles (initial world))
                     (effects (initial world) ++ [FsReaddir directory])))
      as (suffix & evs & _ & _ & _ & Heff & Hquiet).
    destruct (processEntries formatFileSize E directory opts directory es _)
      as [[[]|e] st]; cbn [snd effects initial] in *;
      cbn [when ret get throw snd effects];
      rewrite ?andb_false_r; cbn [when ret get throw snd effects];
      (exists ([FsReaddir directory] ++ evs);
       split; [now rewrite Heff, <- app_assoc|];
       constructor; [reflexivity | now apply Hquiet]).
  - exists [FsReaddir directory]. split; [reflexivity|].
    repeat constructor.
Qed.

Lemma processFiles_is_silent_witness :
  exists evs,
    snd (processFiles Scenario.bytes Scenario.quiet Scenario.root_dir
           Scenario.one_megabyte Scenario.two_files []) = [] ++ evs
    /\ Forall (fun ev => is_report ev = false) evs.
Proof.
  apply (@processFiles_is_silent Scenario.bytes Scenario.quiet
           Scenario.root_dir Scenario.one_megabyte Scenario.two_files []
           eq_refl eq_refl).
Defined.

(** ** The threshold and the include-all flag *)









(** X20. With [includeAll] set, a run on a tree in which [fs.stat] and
    [fs.readFile] succeed on every visited file skips nothing: every
    visited file is processed. *)
Theorem includeAll_skips_nothing_readable :
  forall (formatFileSize : Z -> string) (E : env) (directory : path)
         (opts : options) (root : settled (list dirent))
         (world : list event) (out : string) (st : state),
    includeAll opts = true ->
    Forall (fun c : candidate =>
              exists size content,
                f_stat (snd c) = Fulfilled size
                /\ f_content (snd c) = Fulfilled content)
      (visited root) ->
    processFiles_run formatFileSize E directory opts root world
    = (Fulfilled out, st) ->
    skippedFiles st = 0
    /\ processedFiles st = List.length (visited root).
Proof.
  intros formatFileSize E directory opts root world out st Hall Hread Hrun.
  assert (Hnone : filter (fun c => negb (kept opts c)) (visited root) = []).
  { induction Hread as [|[rel f] l (size & content & Hstat & Hcontent) _ IH];
      [reflexivity|].
    cbn [filter]. unfold kept at 1. cbn [snd] in *.
    rewrite (@classify_included opts f size content Hstat (or_introl Hall)
               Hcontent).
    exact IH. }
  pose proof (processFiles_run_follows formatFileSize E directory opts
                root world) as H.
  destruct (fatal root) as [e|].
  { destruct H as (st' & H). rewrite H in Hrun. discriminate. }
  destruct H as (st' & H & Hadv & _). rewrite H in Hrun.
  injection Hrun as _ <-.
  pose proof (advanced_counters Hadv) as Hsum.
  destruct Hadv as (_ & _ & Hs & _).
  rewrite Hnone in Hs. cbn [initial processedFiles skippedFiles List.length] in *.
  lia.
Qed.

Lemma includeAll_skips_nothing_readable_witness :
  skippedFiles
    (snd (processFiles_run Scenario.bytes Scenario.quiet Scenario.root_dir
            (mkOptions Scenario.tenth true) Scenario.big_bin [])) = 0.
Proof.
  apply (@includeAll_skips_nothing_readable Scenario.bytes Scenario.quiet
           Scenario.root_dir (mkOptions Scenario.tenth true) Scenario.big_bin
           []
           (record Scenario.bytes "big.bin" 2097152 "0123")
           (snd (processFiles_run Scenario.bytes Scenario.quiet
                   Scenario.root_dir (mkOptions Scenario.tenth true)
                   Scenario.big_bin []))
           eq_refl).
  - repeat constructor. now exists 2097152%Z, "0123".
  - vm_compute. reflexivity.
Defined.

(** ** Names with a dot *)

Lemma word_run_no_dot (s : string) :
  word_run s = true -> includes s "." = false.
Proof.
  induction s as [|c s IH]; intros H; [reflexivity|].
  assert (Hc : is_word_or_hyphen c = true /\ (s = EmptyString \/ word_run s = true)).
  { cbn [word_run] in H. destruct s as [|d s]; [auto|].
    apply andb_prop in H. destruct H as [H1 H2]. auto. }
  destruct Hc as [Hc Hs].
  cbn [includes startsWith]. rewrite andb_true_r.
  assert (Hdot : ("." =? c)%char = false).
  { apply Ascii.eqb_neq. intros <-. discriminate Hc. }
  rewrite Hdot. cbn [orb].
  destruct Hs as [-> | Hs]; [reflexivity | now apply IH].
Qed.

Lemma short_format_no_dot (seen : bool) (s : string) :
  short_format_from seen s = true -> includes s "." = false.
Proof.
  revert seen. induction s as [|c s IH]; intros seen H; [reflexivity|].
  cbn [short_format_from] in H.
  cbn [includes startsWith]. rewrite andb_true_r.
  destruct (is_word_or_hyphen c) eqn:Hc.
  - assert (Hdot : ("." =? c)%char = false).
    { apply Ascii.eqb_neq. intros <-. discriminate Hc. }
    rewrite Hdot. cbn [orb]. now apply (IH true).
  - destruct (c =? "/")%char eqn:Hslash; [|discriminate].
    apply Ascii.eqb_eq in Hslash. subst c. cbn [Ascii.eqb orb].
    apply andb_prop in H. destruct H as [_ H].
    cbn. now apply word_run_no_dot.
Qed.

(** X21. Without [--local], a source that has a dot in it and that does
    not contain [github.com] is rejected by [validateInput], which calls
    nothing: the short format [user/repo] takes letters, digits,
    underscores and hyphens only. *)
Theorem validateInput_rejects_dotted_short_format :
  forall (path_join : string -> string -> string) (W : machine)
         (src : string) (rest : list string) (fl : flags)
         (trace : list action),
    flag_local fl = false ->
    includes src "." = true ->
    includes src "github.com" = false ->
    validateInput path_join W (src :: rest) fl trace
    = (Rejected
         "Only GitHub repositories or local paths (with --local flag) are supported",
       trace).
Proof.
  intros path_join W src rest fl trace Hremote Hdot Hhost.
  unfold validateInput. rewrite Hremote, Hhost.
  destruct (short_format src) eqn:Hshort; [|reflexivity].
  apply short_format_no_dot in Hshort. congruence.
Qed.

Lemma validateInput_rejects_dotted_short_format_witness :
  validateInput Desk.join2 Desk.fine ["vercel/next.js"] Desk.remote_flags []
  = (Rejected
       "Only GitHub repositories or local paths (with --local flag) are supported",
     []).
Proof.
  apply (@validateInput_rejects_dotted_short_format Desk.join2 Desk.fine
           "vercel/next.js" [] Desk.remote_flags [] eq_refl eq_refl eq_refl).
Defined.
